(** * IR-controlled car: the receiver sketch [Final_car.ino]

    A shallow embedding of the receiver's control loop (mode arbitration,
    manual-silence watchdog, obstacle-avoidance cycle) together with the
    properties stated about it.

    Conventions.
    - [unsigned long] is 32 bits wide: values are [Z] in [0, 2^32) and
      subtraction wraps ([usub]).
    - The globals of the sketch, the output pins it drives and the serial
      log it prints (most recent line first) are the fields of one [State];
      every [void] function of the sketch is a [State -> State]
      transformer, sequenced with [;;].
    - What the environment supplies during one pass through [loop()] (the
      decoded IR frame, the clock at each [millis()] call, the echo seen by
      [pulseIn]) is an [Inputs] record. *)

From Stdlib Require Import ZArith List Bool Lia.
From Stdlib Require Import Floats.SpecFloat.
Import ListNotations.
Open Scope Z_scope.

(** ** Constants of the sketch *)

Definition IN1 : Z := 7.
Definition IN2 : Z := 8.
Definition IN3 : Z := 9.
Definition IN4 : Z := 10.

Definition IR_FORWARD   : Z := 0x2200.
Definition IR_BACKWARD  : Z := 0xC200.
Definition IR_LEFT      : Z := 0xA800.
Definition IR_RIGHT     : Z := 0x6200.
Definition IR_SMART_FWD : Z := 0x200.

Definition TRIGGER_PIN : Z := 13.
Definition ECHO_PIN    : Z := 12.
Definition OBSTACLE_THRESHOLD : Z := 20.

Definition BUZZER_PIN : Z := 6.

Definition obstacleCheckInterval : Z := 300.
Definition signalTimeout : Z := 200.

Definition LOW  : bool := false.
Definition HIGH : bool := true.

(** ** Machine arithmetic *)

Module U32.

Definition modulus : Z := 2 ^ 32.

(** Truncation of an integer to [unsigned long]. *)
Definition wrap (x : Z) : Z := x mod modulus.

(** [a - b] on [unsigned long]. *)
Definition usub (a b : Z) : Z := wrap (a - b).

End U32.

(** [millis()]: the number of milliseconds since power-on, as an
    [unsigned long]; [T] is the true number of milliseconds, so the
    counter rolls over every [2^32] ms. *)
Definition millis (T : Z) : Z := U32.wrap T.

(** ** Floating point of [getDistance]

    [duration * 0.034 / 2] is evaluated in [double], which on the AVR
    boards this sketch targets is IEEE binary32, and the result is
    converted to [int] by truncation. *)

Module F32.

Definition prec : Z := 24.
Definition emax : Z := 128.

Definition of_Z (n : Z) : spec_float := binary_normalize prec emax n 0 false.
Definition mul : spec_float -> spec_float -> spec_float := SFmul prec emax.
Definition div : spec_float -> spec_float -> spec_float := SFdiv prec emax.

(** The literal [0.034]: the binary32 number nearest to 34/1000. *)
Definition lit_0_034 : spec_float := div (of_Z 34) (of_Z 1000).

(** Conversion to an integer type: the fractional part is discarded. *)
Definition to_int (x : spec_float) : Z :=
  match x with
  | S754_finite s m e =>
      let a := match e with
               | Zneg k => Z.shiftr (Zpos m) (Zpos k)
               | _ => Z.shiftl (Zpos m) e
               end in
      if s then - a else a
  | _ => 0
  end.

End F32.

(** ** Environment *)

(** What the echo pin shows after a trigger: no pulse before [pulseIn]
    gives up, or a pulse of [us] microseconds. *)
Inductive Echo : Type :=
| NoEcho
| Pulse (us : Z).

(** [pulseIn(ECHO_PIN, HIGH)]: the length of the pulse in microseconds, and
    0 when no complete pulse was seen within the timeout. *)
Definition pulseIn (e : Echo) : Z :=
  match e with
  | NoEcho => 0
  | Pulse us => us
  end.

(** One pass through [loop()]. [ir] is [Some c] when [IrReceiver.decode()]
    returns true with [decodedIRData.command = c]; the four clocks are the
    true time in milliseconds at the four places [millis()] is called
    (lines 71, 77, 83 and 126), and [echo] is what the range sensor sees
    should [checkObstacle] run. *)
Record Inputs : Type := mkInputs {
  ir        : option Z;
  clk_ir    : Z;
  clk_wd    : Z;
  clk_chk   : Z;
  clk_cycle : Z;
  echo      : Echo
}.

(** ** State *)

(** Lines written to [Serial]. The log in the state lists the most recent
    line first. *)
Inductive Msg : Type :=
| CarReady
| ReceivedCommand (c : Z)
| DistanceCm (d : Z)
| ObstacleDetected
| PathClear
| SmartModeON
| SmartModeOFF
| MovingFORWARD
| MovingBACKWARD
| TurningLEFT
| TurningRIGHT
| STOPPED.

Record State : Type := mkState {
  isSmartForward    : bool;
  isAvoiding        : bool;
  lastObstacleCheck : Z;
  lastIRSignalTime  : Z;
  in1               : bool;
  in2               : bool;
  in3               : bool;
  in4               : bool;
  buzzer            : bool;
  trigger           : bool;
  serial            : list Msg
}.

(** The globals as initialised at power-on, all pins low, nothing printed. *)
Definition power_on : State :=
  {| isSmartForward := false; isAvoiding := false;
     lastObstacleCheck := 0; lastIRSignalTime := 0;
     in1 := LOW; in2 := LOW; in3 := LOW; in4 := LOW;
     buzzer := LOW; trigger := LOW; serial := [] |}.

Definition Cmd : Type := State -> State.

Definition seq (f g : Cmd) : Cmd := fun s => g (f s).
Notation "f ;; g" := (seq f g) (at level 61, right associativity).

Definition skip : Cmd := fun s => s.

Definition ifb (c : State -> bool) (t e : Cmd) : Cmd :=
  fun s => if c s then t s else e s.

Definition set_isSmartForward (b : bool) : Cmd := fun s =>
  {| isSmartForward := b; isAvoiding := isAvoiding s;
     lastObstacleCheck := lastObstacleCheck s;
     lastIRSignalTime := lastIRSignalTime s;
     in1 := in1 s; in2 := in2 s; in3 := in3 s; in4 := in4 s;
     buzzer := buzzer s; trigger := trigger s; serial := serial s |}.

Definition set_isAvoiding (b : bool) : Cmd := fun s =>
  {| isSmartForward := isSmartForward s; isAvoiding := b;
     lastObstacleCheck := lastObstacleCheck s;
     lastIRSignalTime := lastIRSignalTime s;
     in1 := in1 s; in2 := in2 s; in3 := in3 s; in4 := in4 s;
     buzzer := buzzer s; trigger := trigger s; serial := serial s |}.

Definition set_lastObstacleCheck (t : Z) : Cmd := fun s =>
  {| isSmartForward := isSmartForward s; isAvoiding := isAvoiding s;
     lastObstacleCheck := t;
     lastIRSignalTime := lastIRSignalTime s;
     in1 := in1 s; in2 := in2 s; in3 := in3 s; in4 := in4 s;
     buzzer := buzzer s; trigger := trigger s; serial := serial s |}.

Definition set_lastIRSignalTime (t : Z) : Cmd := fun s =>
  {| isSmartForward := isSmartForward s; isAvoiding := isAvoiding s;
     lastObstacleCheck := lastObstacleCheck s;
     lastIRSignalTime := t;
     in1 := in1 s; in2 := in2 s; in3 := in3 s; in4 := in4 s;
     buzzer := buzzer s; trigger := trigger s; serial := serial s |}.

(** [Serial.println]. *)
Definition println (m : Msg) : Cmd := fun s =>
  {| isSmartForward := isSmartForward s; isAvoiding := isAvoiding s;
     lastObstacleCheck := lastObstacleCheck s;
     lastIRSignalTime := lastIRSignalTime s;
     in1 := in1 s; in2 := in2 s; in3 := in3 s; in4 := in4 s;
     buzzer := buzzer s; trigger := trigger s; serial := m :: serial s |}.

(** [digitalWrite(pin, v)] on the output pins of the sketch; a write to any
    other pin leaves the modelled state alone. *)
Definition digitalWrite (pin : Z) (v : bool) : Cmd := fun s =>
  {| isSmartForward := isSmartForward s; isAvoiding := isAvoiding s;
     lastObstacleCheck := lastObstacleCheck s;
     lastIRSignalTime := lastIRSignalTime s;
     in1 := if pin =? IN1 then v else in1 s;
     in2 := if pin =? IN2 then v else in2 s;
     in3 := if pin =? IN3 then v else in3 s;
     in4 := if pin =? IN4 then v else in4 s;
     buzzer := if pin =? BUZZER_PIN then v else buzzer s;
     trigger := if pin =? TRIGGER_PIN then v else trigger s;
     serial := serial s |}.

(** The four motor-driver inputs, in the order IN1..IN4. *)
Definition motors (s : State) : bool * bool * bool * bool :=
  (in1 s, in2 s, in3 s, in4 s).

Definition M_FORWARD  := (LOW, LOW, HIGH, HIGH).
Definition M_BACKWARD := (HIGH, HIGH, LOW, LOW).
Definition M_LEFT     := (LOW, HIGH, HIGH, LOW).
Definition M_RIGHT    := (HIGH, LOW, LOW, HIGH).
Definition M_STOP     := (HIGH, HIGH, HIGH, HIGH).

(** ** The sketch *)

Definition moveForward : Cmd :=
  digitalWrite IN1 LOW ;;
  digitalWrite IN2 LOW ;;
  digitalWrite IN3 HIGH ;;
  digitalWrite IN4 HIGH ;;
  println MovingFORWARD.

Definition moveBackward : Cmd :=
  digitalWrite IN1 HIGH ;;
  digitalWrite IN2 HIGH ;;
  digitalWrite IN3 LOW ;;
  digitalWrite IN4 LOW ;;
  println MovingBACKWARD.

Definition turnLeft : Cmd :=
  digitalWrite IN1 LOW ;;
  digitalWrite IN2 HIGH ;;
  digitalWrite IN3 HIGH ;;
  digitalWrite IN4 LOW ;;
  println TurningLEFT.

Definition turnRight : Cmd :=
  digitalWrite IN1 HIGH ;;
  digitalWrite IN2 LOW ;;
  digitalWrite IN3 LOW ;;
  digitalWrite IN4 HIGH ;;
  println TurningRIGHT.

Definition stopCar : Cmd :=
  digitalWrite IN1 HIGH ;;
  digitalWrite IN2 HIGH ;;
  digitalWrite IN3 HIGH ;;
  digitalWrite IN4 HIGH ;;
  println STOPPED.

(** [getDistance()] in two parts: what it does to the trigger pin
    ([getDistance_pins]) and the value it returns ([getDistance]).
    [cm_of_duration] is the expression [duration * 0.034 / 2] converted to
    [int]; for pulses up to the one second [pulseIn] waits by default the
    result is at most 17000 and fits a 16-bit [int]. *)
Definition cm_of_duration (duration : Z) : Z :=
  F32.to_int (F32.div (F32.mul (F32.of_Z duration) F32.lit_0_034) (F32.of_Z 2)).

Definition getDistance_pins : Cmd :=
  digitalWrite TRIGGER_PIN LOW ;;
  digitalWrite TRIGGER_PIN HIGH ;;
  digitalWrite TRIGGER_PIN LOW.

Definition getDistance (e : Echo) : Z :=
  let duration := pulseIn e in
  cm_of_duration duration.

Definition stopSmartMode : Cmd :=
  ifb isSmartForward
    (set_isSmartForward false ;;
     println SmartModeOFF ;;
     digitalWrite BUZZER_PIN LOW)
    skip.

Definition toggleSmartMode : Cmd :=
  (fun s => set_isSmartForward (negb (isSmartForward s)) s) ;;
  ifb isSmartForward
    (println SmartModeON ;;
     moveForward)
    (println SmartModeOFF ;;
     digitalWrite BUZZER_PIN LOW ;;
     stopCar).

Definition checkObstacle (now : Z) (e : Echo) : Cmd :=
  set_lastObstacleCheck (millis now) ;;
  getDistance_pins ;;
  let distance := getDistance e in
  println (DistanceCm distance) ;;
  if (0 <? distance) && (distance <? OBSTACLE_THRESHOLD) then
    ifb (fun s => negb (isAvoiding s))
      (println ObstacleDetected ;; set_isAvoiding true)
      skip ;;
    digitalWrite BUZZER_PIN HIGH ;;
    turnRight
  else
    ifb isAvoiding
      (println PathClear ;; set_isAvoiding false)
      skip ;;
    digitalWrite BUZZER_PIN LOW ;;
    moveForward.

Definition handleIRCommand (command : Z) : Cmd :=
  println (ReceivedCommand command) ;;
  if command =? IR_FORWARD then
    ifb (fun s => negb (isSmartForward s)) moveForward skip
  else if command =? IR_BACKWARD then
    stopSmartMode ;; moveBackward
  else if command =? IR_LEFT then
    stopSmartMode ;; turnLeft
  else if command =? IR_RIGHT then
    stopSmartMode ;; turnRight
  else if command =? IR_SMART_FWD then
    toggleSmartMode
  else
    skip.

(** [setup()]; the [pinMode] and [begin] calls have no effect on the
    modelled state. *)
Definition setup : Cmd :=
  stopCar ;;
  digitalWrite BUZZER_PIN LOW ;;
  println CarReady.

(** The three blocks of [loop()]: the IR input, the manual-mode watchdog
    and the smart-mode cycle. *)
Definition loop_ir (i : Inputs) : Cmd :=
  match ir i with
  | Some command =>
      set_lastIRSignalTime (millis (clk_ir i)) ;;
      handleIRCommand command
  | None => skip
  end.

Definition loop_watchdog (i : Inputs) : Cmd :=
  ifb (fun s => negb (isSmartForward s) &&
                (signalTimeout <? U32.usub (millis (clk_wd i)) (lastIRSignalTime s)))
    stopCar
    skip.

Definition loop_smart (i : Inputs) : Cmd :=
  ifb isSmartForward
    (ifb (fun s => obstacleCheckInterval <?
                   U32.usub (millis (clk_chk i)) (lastObstacleCheck s))
       (checkObstacle (clk_cycle i) (echo i))
       skip)
    skip.

Definition loop (i : Inputs) : Cmd :=
  loop_ir i ;; loop_watchdog i ;; loop_smart i.

(** The sketch run over a finite prefix of the environment: [loop] once
    per element, in order. *)
Fixpoint run (ins : list Inputs) (s : State) : State :=
  match ins with
  | [] => s
  | i :: rest => run rest (loop i s)
  end.

Definition boot : State := setup power_on.

(** ** Auxiliary definitions used in the statements *)

(** The branch of [checkObstacle] taken for an obstacle. *)
Definition avoid_branch : Cmd :=
  ifb (fun s => negb (isAvoiding s))
    (println ObstacleDetected ;; set_isAvoiding true)
    skip ;;
  digitalWrite BUZZER_PIN HIGH ;;
  turnRight.

(** The branch of [checkObstacle] taken otherwise. *)
Definition clear_branch : Cmd :=
  ifb isAvoiding
    (println PathClear ;; set_isAvoiding false)
    skip ;;
  digitalWrite BUZZER_PIN LOW ;;
  moveForward.

(** What [checkObstacle] does before it branches, [d] being the distance
    it read. *)
Definition cycle_prologue (now : Z) (d : Z) : Cmd :=
  set_lastObstacleCheck (millis now) ;;
  getDistance_pins ;;
  println (DistanceCm d).

(** The five codes [handleIRCommand] has a [case] for. *)
Definition recognized (command : Z) : bool :=
  existsb (Z.eqb command)
    [IR_FORWARD; IR_BACKWARD; IR_LEFT; IR_RIGHT; IR_SMART_FWD].

(** An iteration in which [IrReceiver.decode()] returns false. *)
Definition silent (i : Inputs) : Prop := ir i = None.

(** The watchdog comparison of line 77, for the timestamp [last]. *)
Definition expired (last : Z) (i : Inputs) : Prop :=
  signalTimeout < U32.usub (millis (clk_wd i)) last.

(** The cadence comparison of line 83, for the timestamp [last]. *)
Definition due (last : Z) (i : Inputs) : bool :=
  obstacleCheckInterval <? U32.usub (millis (clk_chk i)) last.

(** The state in which an iteration reaches the smart-mode block. *)
Definition before_smart (i : Inputs) (s : State) : State :=
  loop_watchdog i (loop_ir i s).

(** Whether the iteration calls [checkObstacle]. *)
Definition runs_cycle (i : Inputs) (s : State) : bool :=
  isSmartForward (before_smart i s) &&
  due (lastObstacleCheck (before_smart i s)) i.

(** The true times at which [checkObstacle] stamps [lastObstacleCheck]
    during a run, oldest first. *)
Fixpoint cycle_times (ins : list Inputs) (s : State) : list Z :=
  match ins with
  | [] => []
  | i :: rest =>
      (if runs_cycle i s then [clk_cycle i] else []) ++
      cycle_times rest (loop i s)
  end.

(** Consecutive elements lie more than [gap] apart. *)
Fixpoint spaced (gap : Z) (prev : Z) (ts : list Z) : Prop :=
  match ts with
  | [] => True
  | t :: rest => gap < t - prev /\ spaced gap t rest
  end.

(** The clock readings of a run never go back: each [millis()] call of an
    iteration reads a time no earlier than [t0] and than the calls before
    it. *)
Fixpoint clock_monotone (t0 : Z) (ins : list Inputs) : Prop :=
  match ins with
  | [] => True
  | i :: rest =>
      t0 <= clk_ir i /\ clk_ir i <= clk_wd i /\ clk_wd i <= clk_chk i /\
      clk_chk i <= clk_cycle i /\ clock_monotone (clk_cycle i) rest
  end.

(** A run during which only unrecognized codes arrive, often enough that
    no watchdog comparison finds more than [signalTimeout] elapsed since
    the most recent frame; [last] is the timestamp before the run. *)
Fixpoint kept_alive (last : Z) (ins : list Inputs) : bool :=
  match ins with
  | [] => true
  | i :: rest =>
      let last' := match ir i with
                   | Some _ => millis (clk_ir i)
                   | None => last
                   end in
      match ir i with
      | Some c => negb (recognized c)
      | None => true
      end &&
      (U32.usub (millis (clk_wd i)) last' <=? signalTimeout) &&
      kept_alive last' rest
  end.

(** The [ReceivedCommand] lines a run prints, most recent first. *)
Definition received_log (ins : list Inputs) : list Msg :=
  rev (flat_map (fun i => match ir i with
                          | Some c => [ReceivedCommand c]
                          | None => []
                          end) ins).

(** A state at power-on: the globals hold their initialisers and nothing
    has been printed; the pins may show any level. *)
Definition initial (p : State) : Prop :=
  isSmartForward p = false /\ isAvoiding p = false /\
  lastObstacleCheck p = 0 /\ lastIRSignalTime p = 0 /\ serial p = [].

(** States the sketch can be in at the top of [loop()]: after [setup()],
    and after each further pass through [loop()]. *)
Inductive reachable : State -> Prop :=
| reach_setup (p : State) :
    initial p -> reachable (setup p)
| reach_loop (i : Inputs) (s : State) :
    reachable s -> reachable (loop i s).

(** A run from [boot] that leaves smart mode by a manual override while an
    obstacle is being avoided: smart mode is switched on at 1000 ms with an
    obstacle 10 cm ahead (the cycle runs in the same iteration), and
    Backward arrives at 1100 ms. *)
Definition smart_with_obstacle : list Inputs :=
  [ mkInputs (Some IR_SMART_FWD) 1000 1000 1000 1000 (Pulse 600) ].

Definition override_while_avoiding : list Inputs :=
  smart_with_obstacle ++
  [ mkInputs (Some IR_BACKWARD) 1100 1100 1100 1100 NoEcho ].

(** A run from [boot] for the watchdog: Forward is received at 1000 ms. *)
Definition forward_at_1000 : list Inputs :=
  [ mkInputs (Some IR_FORWARD) 1000 1000 1000 1000 NoEcho ].

(** An iteration without a frame, all of whose clock reads give [t]. *)
Definition idle_at (t : Z) : Inputs := mkInputs None t t t t NoEcho.

(** Three polls more than 200 ms after that command, and one poll just
    after the counter has gone once round since the command. *)
Definition polls_after_timeout : list Inputs :=
  [ idle_at 1201; idle_at 1202; idle_at 1500 ].

Definition poll_after_rollover : list Inputs :=
  [ idle_at (1000 + 2 ^ 32 + 50) ].

(** The buzzer invariant: in manual mode the buzzer pin is low. *)
Definition quiet_in_manual (s : State) : Prop :=
  isSmartForward s = false -> buzzer s = LOW.

(** A code that is none of the five commands. *)
Definition IR_UNKNOWN : Z := 0x1234.

(** An iteration that decodes the frame [c], all clock reads giving [t]. *)
Definition frame_at (c : Z) (t : Z) : Inputs := mkInputs (Some c) t t t t NoEcho.

(** Unknown frames every 150 ms after a Forward command at 1000 ms, with
    idle iterations in between. *)
Definition unknown_stream : list Inputs :=
  [ idle_at 1100; frame_at IR_UNKNOWN 1150; idle_at 1250;
    frame_at IR_UNKNOWN 1300; idle_at 1400; frame_at IR_UNKNOWN 1450;
    idle_at 1600; idle_at 1650 ].

(** A run from [boot] for the cadence: smart mode is switched on at
    1000 ms, where the first cycle runs at once, and the loop polls again
    at 1300 ms and at 1301 ms. *)
Definition smart_on_at_1000 : list Inputs := [ frame_at IR_SMART_FWD 1000 ].

Definition cadence_run : list Inputs :=
  smart_on_at_1000 ++ [ idle_at 1300; idle_at 1301 ].

(** Polls in smart mode between two presses of the smart-forward button:
    nothing is due at 1200 ms, an obstacle 8 cm ahead is seen at 1400 ms. *)
Definition polls_in_smart_mode : list Inputs :=
  [ idle_at 1200; mkInputs None 1400 1400 1400 1400 (Pulse 500) ].

(** The scenarios of the specification, as runs from [boot]. *)
Definition scenario_B : list Inputs :=
  [ frame_at IR_SMART_FWD 1000;
    mkInputs None 1400 1400 1400 1400 (Pulse 900) ].

Definition scenario_C : list Inputs :=
  scenario_B ++ [ idle_at 1800 ].

Definition scenario_D : list Inputs :=
  scenario_B ++ [ frame_at IR_BACKWARD 1500 ].

(** ** Further definitions *)

(** The same iteration with no frame decoded. *)
Definition without_frame (i : Inputs) : Inputs :=
  mkInputs None (clk_ir i) (clk_wd i) (clk_chk i) (clk_cycle i) (echo i).

(** The guard of [checkObstacle] on a reading [d]. *)
Definition in_range (d : Z) : bool := (0 <? d) && (d <? OBSTACLE_THRESHOLD).

(** What holds whenever the buzzer sounds, and how the car moves in smart
    mode while it does not. *)
Definition buzzer_tracks_avoidance (s : State) : Prop :=
  (buzzer s = HIGH ->
   isSmartForward s = true /\ motors s = M_RIGHT /\ isAvoiding s = true) /\
  (isSmartForward s = true -> buzzer s = LOW -> motors s = M_FORWARD).

(** [P] on every integer of [lo, hi), by bisection; [fuel] bounds the
    depth, and a range too wide for it is rejected. *)
Fixpoint range_ok (P : Z -> bool) (fuel : nat) (lo hi : Z) : bool :=
  match fuel with
  | O => (hi <=? lo) || ((hi =? lo + 1) && P lo)
  | S f =>
      if hi <=? lo + 1 then (hi <=? lo) || P lo
      else let mid := lo + (hi - lo) / 2 in
           range_ok P f lo mid && range_ok P f mid hi
  end.

(** For an echo of [us] microseconds: the reading is in range exactly for
    59 to 1176 microseconds, and it is a non-negative 16-bit [int]. *)
Definition window_check (us : Z) : bool :=
  let d := cm_of_duration us in
  Bool.eqb (in_range d) ((59 <=? us) && (us <=? 1176)) &&
  (0 <=? d) && (d <=? 32767).

(** A time 100 ms before the counter rolls over. *)
Definition stamp_before_rollover : Z := 2 ^ 32 - 100.

(** ** The transmitter sketch [IR_Controller_Joystick] *)

Module Transmitter.

Definition IR_LED_PIN : Z := 4.
Definition JOY_BTN : Z := 2.

Definition IR_FORWARD   : Z := 0x2200.
Definition IR_BACKWARD  : Z := 0xC200.
Definition IR_LEFT      : Z := 0xA800.
Definition IR_RIGHT     : Z := 0x6200.
Definition IR_SMART_FWD : Z := 0x200.

(** What the sketch does to the outside, most recent first: the line it
    prints, a frame handed to [IrSender.sendNEC], a [delay]. *)
Inductive Event : Type :=
| PrintXY (x y : Z)
| SendNEC (data nbits : Z)
| Delay (ms : Z).

Definition Tx : Type := list Event -> list Event.

Definition emit (e : Event) : Tx := fun log => e :: log.
Definition andThen (f g : Tx) : Tx := fun log => g (f log).
Definition nothing : Tx := fun log => log.

(** [for (int i = start; i < bound; i++) body], with [n] the number of
    iterations left. *)
Fixpoint for_count (n : nat) (i : Z) (body : Z -> Tx) : Tx :=
  match n with
  | O => nothing
  | S n' => andThen (body i) (for_count n' (i + 1) body)
  end.

Definition for_lt (bound : Z) (body : Z -> Tx) : Tx :=
  for_count (Z.to_nat bound) 0 body.

Definition sendIR (command : Z) : Tx :=
  for_lt 3 (fun _ =>
    andThen (emit (SendNEC command 32)) (emit (Delay 40))).

(** What one pass through [loop()] reads: the two [analogRead] values and
    the level of the button pin (the button pulls it low). *)
Record Joystick : Type := mkJoystick {
  joy_x   : Z;
  joy_y   : Z;
  btn_pin : bool
}.

Definition loop (j : Joystick) : Tx :=
  let x := joy_x j in
  let y := joy_y j in
  let btn := negb (btn_pin j) in
  andThen (emit (PrintXY x y))
 (andThen
    (if (700 <? y) && (Z.abs (x - 512) <? 100) then sendIR IR_FORWARD
     else if (y <? 300) && (Z.abs (x - 512) <? 100) then sendIR IR_BACKWARD
     else if 700 <? x then sendIR IR_RIGHT
     else if x <? 300 then sendIR IR_LEFT
     else if btn then sendIR IR_SMART_FWD
     else nothing)
    (emit (Delay 50))).

(** The codes of the frames in a log. *)
Fixpoint sent_codes (log : list Event) : list Z :=
  match log with
  | [] => []
  | SendNEC data _ :: rest => data :: sent_codes rest
  | _ :: rest => sent_codes rest
  end.

(** The codes one pass sends. *)
Definition sent (j : Joystick) : list Z := sent_codes (loop j []).

(** The stick is pushed forward or backward with the other axis near its
    centre, or right or left. *)
Definition deflected (j : Joystick) : Prop :=
  (Z.abs (joy_x j - 512) < 100 /\ (700 < joy_y j \/ joy_y j < 300)) \/
  700 < joy_x j \/ joy_x j < 300.

End Transmitter.

(** ** Basic facts about the primitives *)

Arguments U32.usub : simpl never.
Arguments U32.wrap : simpl never.
Arguments millis : simpl never.

(** Goals that hold by evaluating the sketch on a state whose fields are
    variables. *)
Ltac crunch := vm_compute; repeat split.

Lemma seq_apply (f g : Cmd) (s : State) : (f ;; g) s = g (f s).
Proof. reflexivity. Qed.

(** Unsigned subtraction of two counter readings gives the real elapsed
    time as long as that is less than one period of the counter. *)
Lemma usub_millis_exact (t0 t : Z) :
  0 <= t - t0 < U32.modulus ->
  U32.usub (millis t) (millis t0) = t - t0.
Proof.
  intros H. unfold U32.usub, millis, U32.wrap.
  rewrite <- Zminus_mod. now apply Z.mod_small.
Qed.

Lemma stopCar_spec (s : State) :
  let s' := stopCar s in
  motors s' = M_STOP /\
  isSmartForward s' = isSmartForward s /\
  isAvoiding s' = isAvoiding s /\
  lastObstacleCheck s' = lastObstacleCheck s /\
  lastIRSignalTime s' = lastIRSignalTime s /\
  buzzer s' = buzzer s /\
  serial s' = STOPPED :: serial s.
Proof. repeat split. Qed.

Lemma getDistance_NoEcho : getDistance NoEcho = 0.
Proof. reflexivity. Qed.

Lemma checkObstacle_branches (now : Z) (e : Echo) (s : State) :
  checkObstacle now e s =
  if (0 <? getDistance e) && (getDistance e <? OBSTACLE_THRESHOLD)
  then avoid_branch (cycle_prologue now (getDistance e) s)
  else clear_branch (cycle_prologue now (getDistance e) s).
Proof.
  unfold checkObstacle, seq.
  destruct ((0 <? getDistance e) && (getDistance e <? OBSTACLE_THRESHOLD));
    reflexivity.
Qed.

Lemma clear_branch_spec (s : State) :
  let s' := clear_branch s in
  buzzer s' = LOW /\ motors s' = M_FORWARD /\ isAvoiding s' = false /\
  isSmartForward s' = isSmartForward s /\
  lastObstacleCheck s' = lastObstacleCheck s /\
  lastIRSignalTime s' = lastIRSignalTime s /\
  serial s' =
    MovingFORWARD :: (if isAvoiding s then [PathClear] else []) ++ serial s.
Proof.
  destruct s as [sf av lo li a b c d bz tr log]; destruct av; crunch.
Qed.

Lemma avoid_branch_spec (s : State) :
  let s' := avoid_branch s in
  buzzer s' = HIGH /\ motors s' = M_RIGHT /\ isAvoiding s' = true /\
  isSmartForward s' = isSmartForward s /\
  lastObstacleCheck s' = lastObstacleCheck s /\
  lastIRSignalTime s' = lastIRSignalTime s /\
  serial s' =
    TurningRIGHT :: (if isAvoiding s then [] else [ObstacleDetected]) ++ serial s.
Proof.
  destruct s as [sf av lo li a b c d bz tr log]; destruct av; crunch.
Qed.

Lemma cycle_prologue_spec (now d : Z) (s : State) :
  let s' := cycle_prologue now d s in
  lastObstacleCheck s' = millis now /\
  isSmartForward s' = isSmartForward s /\ isAvoiding s' = isAvoiding s /\
  lastIRSignalTime s' = lastIRSignalTime s /\
  serial s' = DistanceCm d :: serial s.
Proof. repeat split. Qed.

Lemma checkObstacle_clear (now : Z) (e : Echo) (s : State) :
  (0 <? getDistance e) && (getDistance e <? OBSTACLE_THRESHOLD) = false ->
  let s' := checkObstacle now e s in
  buzzer s' = LOW /\ motors s' = M_FORWARD /\ isAvoiding s' = false /\
  isSmartForward s' = isSmartForward s /\
  lastObstacleCheck s' = millis now /\
  lastIRSignalTime s' = lastIRSignalTime s /\
  serial s' = MovingFORWARD :: (if isAvoiding s then [PathClear] else []) ++
              DistanceCm (getDistance e) :: serial s.
Proof.
  intros H. rewrite checkObstacle_branches, H. cbv zeta.
  destruct (clear_branch_spec (cycle_prologue now (getDistance e) s))
    as (Hb & Hm & Ha & Hs & Ho & Hi & Hl).
  split; [exact Hb|]. split; [exact Hm|]. split; [exact Ha|].
  split; [exact Hs|]. split; [exact Ho|]. split; [exact Hi|]. exact Hl.
Qed.

Lemma checkObstacle_avoid (now : Z) (e : Echo) (s : State) :
  (0 <? getDistance e) && (getDistance e <? OBSTACLE_THRESHOLD) = true ->
  let s' := checkObstacle now e s in
  buzzer s' = HIGH /\ motors s' = M_RIGHT /\ isAvoiding s' = true /\
  isSmartForward s' = isSmartForward s /\
  lastObstacleCheck s' = millis now /\
  lastIRSignalTime s' = lastIRSignalTime s /\
  serial s' = TurningRIGHT :: (if isAvoiding s then [] else [ObstacleDetected]) ++
              DistanceCm (getDistance e) :: serial s.
Proof.
  intros H. rewrite checkObstacle_branches, H. cbv zeta.
  destruct (avoid_branch_spec (cycle_prologue now (getDistance e) s))
    as (Hb & Hm & Ha & Hs & Ho & Hi & Hl).
  split; [exact Hb|]. split; [exact Hm|]. split; [exact Ha|].
  split; [exact Hs|]. split; [exact Ho|]. split; [exact Hi|]. exact Hl.
Qed.

(** [checkObstacle] never changes the mode or the command timestamp, and
    always stamps the cycle. *)
Lemma checkObstacle_frame (now : Z) (e : Echo) (s : State) :
  let s' := checkObstacle now e s in
  isSmartForward s' = isSmartForward s /\
  lastIRSignalTime s' = lastIRSignalTime s /\
  lastObstacleCheck s' = millis now.
Proof.
  destruct ((0 <? getDistance e) && (getDistance e <? OBSTACLE_THRESHOLD)) eqn:G.
  - destruct (checkObstacle_avoid now e s G) as (_ & _ & _ & H1 & H2 & H3 & _). auto.
  - destruct (checkObstacle_clear now e s G) as (_ & _ & _ & H1 & H2 & H3 & _). auto.
Qed.

(** ** The model on concrete inputs *)

Example lit_0_034_bits : F32.lit_0_034 = S754_finite false 9126806 (-28).
Proof. vm_compute. reflexivity. Qed.

Example cm_of_duration_samples :
  map cm_of_duration [0; 58; 59; 1150; 1176; 1177; 1200; 1000000]
  = [0; 0; 1; 19; 19; 20; 20; 17000].
Proof. vm_compute. reflexivity. Qed.

Example boot_state :
  boot = {| isSmartForward := false; isAvoiding := false;
            lastObstacleCheck := 0; lastIRSignalTime := 0;
            in1 := HIGH; in2 := HIGH; in3 := HIGH; in4 := HIGH;
            buzzer := LOW; trigger := LOW;
            serial := [CarReady; STOPPED] |}.
Proof. reflexivity. Qed.

Example scenario_A_forward :
  motors (run forward_at_1000 boot) = M_FORWARD /\
  isSmartForward (run forward_at_1000 boot) = false /\
  motors (run (forward_at_1000 ++ [idle_at 1200]) boot) = M_FORWARD /\
  motors (run (forward_at_1000 ++ [idle_at 1201]) boot) = M_STOP.
Proof. vm_compute. repeat split. Qed.

Example scenario_B_obstacle :
  isSmartForward (run scenario_B boot) = true /\
  buzzer (run scenario_B boot) = HIGH /\
  motors (run scenario_B boot) = M_RIGHT /\
  isAvoiding (run scenario_B boot) = true /\
  serial (run scenario_B boot) =
    [ TurningRIGHT; ObstacleDetected; DistanceCm 15;
      MovingFORWARD; DistanceCm 0; MovingFORWARD; SmartModeON;
      ReceivedCommand IR_SMART_FWD; CarReady; STOPPED ].
Proof. vm_compute. repeat split. Qed.

Example scenario_C_timeout :
  buzzer (run scenario_C boot) = LOW /\
  motors (run scenario_C boot) = M_FORWARD /\
  isAvoiding (run scenario_C boot) = false.
Proof. vm_compute. repeat split. Qed.

Example scenario_D_override :
  isSmartForward (run scenario_D boot) = false /\
  buzzer (run scenario_D boot) = LOW /\
  motors (run scenario_D boot) = M_BACKWARD.
Proof. vm_compute. repeat split. Qed.

(** ** Fail-open on a sensor timeout *)

(** C4. Whenever the avoidance cycle runs and the range sensor reports no
    echo, the cycle leaves the buzzer low and the motors driving forward;
    what it prints is the distance line, possibly the path-clear line, and
    the forward line, so the turn-right operation is not among the calls. *)
Theorem checkObstacle_timeout_fails_open (now : Z) (s : State) :
  let s' := checkObstacle now NoEcho s in
  buzzer s' = LOW /\
  motors s' = M_FORWARD /\
  isAvoiding s' = false /\
  isSmartForward s' = isSmartForward s /\
  exists log,
    serial s' = log ++ serial s /\
    In MovingFORWARD log /\ ~ In TurningRIGHT log /\ ~ In STOPPED log.
Proof.
  destruct (checkObstacle_clear now NoEcho s eq_refl)
    as (Hb & Hm & Ha & Hs & _ & _ & Hl).
  split; [exact Hb|]. split; [exact Hm|]. split; [exact Ha|]. split; [exact Hs|].
  exists (MovingFORWARD :: (if isAvoiding s then [PathClear] else []) ++ [DistanceCm 0]).
  split.
  - rewrite Hl, getDistance_NoEcho. cbn. now rewrite <- app_assoc.
  - destruct (isAvoiding s); cbn; repeat split; auto;
      intros H; repeat destruct H as [H | H]; try discriminate H; exact H.
Qed.

(** ** Threshold boundary *)

(** C5. A reading equal to the obstacle threshold (20) is handled as a
    clear path: buzzer low, motors forward. A reading one below it (19)
    is handled as an obstacle: buzzer high, motors turning right. The
    comparison with the threshold is strict. *)
Theorem threshold_boundary (now : Z) (at_thr below : Echo) (s : State) :
  getDistance at_thr = OBSTACLE_THRESHOLD ->
  getDistance below = OBSTACLE_THRESHOLD - 1 ->
  OBSTACLE_THRESHOLD = 20 /\
  (let s' := checkObstacle now at_thr s in
   buzzer s' = LOW /\ motors s' = M_FORWARD /\ isAvoiding s' = false /\
   serial s' = MovingFORWARD :: (if isAvoiding s then [PathClear] else []) ++
               DistanceCm 20 :: serial s) /\
  (let s' := checkObstacle now below s in
   buzzer s' = HIGH /\ motors s' = M_RIGHT /\ isAvoiding s' = true /\
   serial s' = TurningRIGHT :: (if isAvoiding s then [] else [ObstacleDetected]) ++
               DistanceCm 19 :: serial s).
Proof.
  intros Hat Hbelow. split; [reflexivity|]. split.
  - destruct (checkObstacle_clear now at_thr s) as (Hb & Hm & Ha & _ & _ & _ & Hl).
    { rewrite Hat. reflexivity. }
    rewrite Hat in Hl. auto.
  - destruct (checkObstacle_avoid now below s) as (Hb & Hm & Ha & _ & _ & _ & Hl).
    { rewrite Hbelow. reflexivity. }
    rewrite Hbelow in Hl. auto.
Qed.

Lemma threshold_boundary_witness :
  getDistance (Pulse 1200) = OBSTACLE_THRESHOLD /\
  getDistance (Pulse 1150) = OBSTACLE_THRESHOLD - 1 /\
  buzzer (checkObstacle 700 (Pulse 1200) boot) = LOW /\
  buzzer (checkObstacle 700 (Pulse 1150) boot) = HIGH.
Proof.
  assert (H20 : getDistance (Pulse 1200) = OBSTACLE_THRESHOLD) by (vm_compute; reflexivity).
  assert (H19 : getDistance (Pulse 1150) = OBSTACLE_THRESHOLD - 1) by (vm_compute; reflexivity).
  split; [exact H20|]. split; [exact H19|].
  destruct (threshold_boundary 700 (Pulse 1200) (Pulse 1150) boot H20 H19)
    as (_ & (Hb & _) & (Hb' & _)).
  split; assumption.
Defined.

(** ** A zero reading *)

Lemma cm_of_duration_below_59 (us : Z) :
  0 <= us <= 58 -> cm_of_duration us = 0.
Proof.
  intros H.
  assert (Hall : forallb (fun n => cm_of_duration (Z.of_nat n) =? 0)
                   (List.seq 0 59) = true) by (vm_compute; reflexivity).
  rewrite forallb_forall in Hall.
  specialize (Hall (Z.to_nat us)).
  rewrite Z2Nat.id in Hall by lia.
  apply Z.eqb_eq, Hall, in_seq. lia.
Qed.

(** C9. A sensor timeout reaches [checkObstacle] as the distance 0, and so
    does an echo from an obstacle nearer than one centimetre (a pulse of at
    most 58 microseconds). The guard [distance > 0] sends both to the
    clear-path branch: for such an echo the cycle does exactly what it does
    on a timeout, leaving the buzzer low and the motors driving forward. *)
Theorem zero_reading_is_clear (now us : Z) (s : State) :
  0 <= us <= 58 ->
  getDistance NoEcho = 0 /\
  getDistance (Pulse us) = 0 /\
  checkObstacle now (Pulse us) s = checkObstacle now NoEcho s /\
  (let s' := checkObstacle now (Pulse us) s in
   buzzer s' = LOW /\ motors s' = M_FORWARD /\ isAvoiding s' = false /\
   serial s' = MovingFORWARD :: (if isAvoiding s then [PathClear] else []) ++
               DistanceCm 0 :: serial s).
Proof.
  intros Hus.
  assert (H0 : getDistance (Pulse us) = 0)
    by (unfold getDistance, pulseIn; now apply cm_of_duration_below_59).
  split; [reflexivity|]. split; [exact H0|]. split.
  - rewrite !checkObstacle_branches, H0, getDistance_NoEcho. reflexivity.
  - destruct (checkObstacle_clear now (Pulse us) s) as (Hb & Hm & Ha & _ & _ & _ & Hl).
    { rewrite H0. reflexivity. }
    rewrite H0 in Hl. auto.
Qed.

Lemma zero_reading_is_clear_witness :
  getDistance (Pulse 40) = 0 /\
  buzzer (checkObstacle 700 (Pulse 40) boot) = LOW /\
  motors (checkObstacle 700 (Pulse 40) boot) = M_FORWARD.
Proof.
  destruct (zero_reading_is_clear 700 40 boot ltac:(lia))
    as (_ & H0 & _ & Hb & Hm & _).
  repeat split; assumption.
Defined.

(** ** Command handling *)

Lemma reach_boot : reachable boot.
Proof. apply reach_setup. repeat split. Qed.

Lemma reachable_run (ins : list Inputs) :
  forall s, reachable s -> reachable (run ins s).
Proof.
  induction ins as [|i rest IH]; intros s Hs; cbn.
  - exact Hs.
  - apply IH. now constructor.
Qed.

Lemma run_app (xs ys : list Inputs) :
  forall s, run (xs ++ ys) s = run ys (run xs s).
Proof.
  induction xs as [|x xs IH]; intros s; cbn; [reflexivity | apply IH].
Qed.

Lemma toggleSmartMode_on (s : State) :
  isSmartForward s = false ->
  let s' := toggleSmartMode s in
  isSmartForward s' = true /\ motors s' = M_FORWARD /\
  isAvoiding s' = isAvoiding s /\ buzzer s' = buzzer s /\
  lastObstacleCheck s' = lastObstacleCheck s /\
  lastIRSignalTime s' = lastIRSignalTime s /\
  serial s' = MovingFORWARD :: SmartModeON :: serial s.
Proof.
  intros H. destruct s as [sf av lo li a b c d bz tr log].
  cbn in H; subst sf. crunch.
Qed.

Lemma toggleSmartMode_off (s : State) :
  isSmartForward s = true ->
  let s' := toggleSmartMode s in
  isSmartForward s' = false /\ motors s' = M_STOP /\
  isAvoiding s' = isAvoiding s /\ buzzer s' = LOW /\
  lastObstacleCheck s' = lastObstacleCheck s /\
  lastIRSignalTime s' = lastIRSignalTime s /\
  serial s' = STOPPED :: SmartModeOFF :: serial s.
Proof.
  intros H. destruct s as [sf av lo li a b c d bz tr log].
  cbn in H; subst sf. crunch.
Qed.

Lemma handleIRCommand_toggle (s : State) :
  handleIRCommand IR_SMART_FWD s =
  toggleSmartMode (println (ReceivedCommand IR_SMART_FWD) s).
Proof. reflexivity. Qed.

(** C2, as the sketch has it. Receiving the smart-forward code in manual
    mode switches smart mode on and drives forward; the avoidance flag is
    not reset but keeps the value it had, as do the buzzer and both
    timestamps. *)
Theorem toggle_from_manual_keeps_avoidance_flag (s : State) :
  isSmartForward s = false ->
  let s' := handleIRCommand IR_SMART_FWD s in
  isSmartForward s' = true /\
  motors s' = M_FORWARD /\
  isAvoiding s' = isAvoiding s /\
  buzzer s' = buzzer s /\
  lastObstacleCheck s' = lastObstacleCheck s /\
  lastIRSignalTime s' = lastIRSignalTime s /\
  serial s' = MovingFORWARD :: SmartModeON ::
              ReceivedCommand IR_SMART_FWD :: serial s.
Proof.
  intros Hm. rewrite handleIRCommand_toggle.
  exact (toggleSmartMode_on (println (ReceivedCommand IR_SMART_FWD) s) Hm).
Qed.

Lemma toggle_from_manual_keeps_avoidance_flag_witness :
  isSmartForward (run override_while_avoiding boot) = false /\
  isAvoiding (handleIRCommand IR_SMART_FWD (run override_while_avoiding boot))
  = isAvoiding (run override_while_avoiding boot).
Proof.
  assert (Hm : isSmartForward (run override_while_avoiding boot) = false)
    by (vm_compute; reflexivity).
  split; [exact Hm|].
  destruct (toggle_from_manual_keeps_avoidance_flag _ Hm) as (_ & _ & Ha & _).
  exact Ha.
Defined.

(** C2 as stated fails. After a manual override during an avoidance
    manoeuvre the sketch is in manual mode with the avoidance flag set;
    the smart-forward code then enters smart mode with the flag still set. *)
Lemma toggle_from_manual_does_not_reset_avoidance :
  reachable (run override_while_avoiding boot) /\
  isSmartForward (run override_while_avoiding boot) = false /\
  isAvoiding (run override_while_avoiding boot) = true /\
  isSmartForward
    (handleIRCommand IR_SMART_FWD (run override_while_avoiding boot)) = true /\
  isAvoiding
    (handleIRCommand IR_SMART_FWD (run override_while_avoiding boot)) <> false.
Proof.
  split; [apply reachable_run, reach_boot|].
  vm_compute. repeat split. discriminate.
Qed.

Lemma stopSmartMode_spec (s : State) :
  let s' := stopSmartMode s in
  isSmartForward s' = false /\
  buzzer s' = (if isSmartForward s then LOW else buzzer s) /\
  motors s' = motors s /\ isAvoiding s' = isAvoiding s /\
  lastObstacleCheck s' = lastObstacleCheck s /\
  lastIRSignalTime s' = lastIRSignalTime s /\
  serial s' = (if isSmartForward s then [SmartModeOFF] else []) ++ serial s.
Proof.
  destruct s as [sf av lo li a b c d bz tr log]; destruct sf; crunch.
Qed.

(** C3. In smart mode, whatever the avoidance flag, each of Backward, Left
    and Right leaves smart mode, sets the buzzer low and performs its own
    manoeuvre: the motor pins show that manoeuvre and the log records the
    mode change followed by the manoeuvre. *)
Theorem manual_override_supremacy
    (s : State) (c : Z) (m : bool * bool * bool * bool) (line : Msg) :
  isSmartForward s = true ->
  In (c, m, line)
     [ (IR_BACKWARD, M_BACKWARD, MovingBACKWARD);
       (IR_LEFT, M_LEFT, TurningLEFT);
       (IR_RIGHT, M_RIGHT, TurningRIGHT) ] ->
  let s' := handleIRCommand c s in
  isSmartForward s' = false /\
  buzzer s' = LOW /\
  motors s' = m /\
  isAvoiding s' = isAvoiding s /\
  serial s' = line :: SmartModeOFF :: ReceivedCommand c :: serial s.
Proof.
  intros Hs Hin.
  destruct s as [sf av lo li a b c0 d bz tr log]; cbn in Hs; subst sf.
  destruct Hin as [E | [E | [E | []]]];
    apply (f_equal (fun x => (fst (fst x), snd (fst x), snd x))) in E;
    cbn in E; injection E as <- <- <-; crunch.
Qed.

Lemma manual_override_supremacy_witness :
  isSmartForward (run smart_with_obstacle boot) = true /\
  isAvoiding (run smart_with_obstacle boot) = true /\
  buzzer (run smart_with_obstacle boot) = HIGH /\
  isSmartForward (handleIRCommand IR_LEFT (run smart_with_obstacle boot)) = false /\
  buzzer (handleIRCommand IR_LEFT (run smart_with_obstacle boot)) = LOW /\
  motors (handleIRCommand IR_LEFT (run smart_with_obstacle boot)) = M_LEFT.
Proof.
  assert (Hs : isSmartForward (run smart_with_obstacle boot) = true)
    by (vm_compute; reflexivity).
  split; [exact Hs|]. split; [vm_compute; reflexivity|].
  split; [vm_compute; reflexivity|].
  destruct (manual_override_supremacy (run smart_with_obstacle boot)
              IR_LEFT M_LEFT TurningLEFT Hs)
    as (H1 & H2 & H3 & _).
  { right; left; reflexivity. }
  repeat split; assumption.
Defined.

(** ** The blocks of [loop] *)

Lemma loop_blocks (i : Inputs) (s : State) :
  loop i s = loop_smart i (loop_watchdog i (loop_ir i s)).
Proof. reflexivity. Qed.

Lemma loop_ir_silent (i : Inputs) (s : State) :
  silent i -> loop_ir i s = s.
Proof. unfold silent, loop_ir. intros ->. reflexivity. Qed.

Lemma loop_watchdog_smart (i : Inputs) (s : State) :
  isSmartForward s = true -> loop_watchdog i s = s.
Proof. unfold loop_watchdog, ifb. intros ->. reflexivity. Qed.

Lemma loop_watchdog_manual (i : Inputs) (s : State) :
  isSmartForward s = false ->
  loop_watchdog i s =
  if signalTimeout <? U32.usub (millis (clk_wd i)) (lastIRSignalTime s)
  then stopCar s else s.
Proof. unfold loop_watchdog, ifb, skip. intros ->. reflexivity. Qed.

Lemma loop_smart_manual (i : Inputs) (s : State) :
  isSmartForward s = false -> loop_smart i s = s.
Proof. unfold loop_smart, ifb. intros ->. reflexivity. Qed.

Lemma loop_smart_smart (i : Inputs) (s : State) :
  isSmartForward s = true ->
  loop_smart i s =
  if due (lastObstacleCheck s) i
  then checkObstacle (clk_cycle i) (echo i) s else s.
Proof. unfold loop_smart, ifb, skip, due. intros ->. reflexivity. Qed.

Lemma loop_silent_manual (i : Inputs) (s : State) :
  silent i -> isSmartForward s = false ->
  loop i s =
  if signalTimeout <? U32.usub (millis (clk_wd i)) (lastIRSignalTime s)
  then stopCar s else s.
Proof.
  intros Hi Hm.
  rewrite loop_blocks, (loop_ir_silent i s Hi), (loop_watchdog_manual i s Hm).
  destruct (signalTimeout <? _); apply loop_smart_manual; exact Hm.
Qed.

Lemma loop_silent_smart (i : Inputs) (s : State) :
  silent i -> isSmartForward s = true ->
  loop i s =
  if due (lastObstacleCheck s) i
  then checkObstacle (clk_cycle i) (echo i) s else s.
Proof.
  intros Hi Hm.
  rewrite loop_blocks, (loop_ir_silent i s Hi), (loop_watchdog_smart i s Hm).
  now apply loop_smart_smart.
Qed.

(** ** The manual-silence watchdog *)

Lemma loop_silent_manual_frame (i : Inputs) (s : State) :
  silent i -> isSmartForward s = false ->
  let s' := loop i s in
  isSmartForward s' = false /\
  lastIRSignalTime s' = lastIRSignalTime s /\
  lastObstacleCheck s' = lastObstacleCheck s /\
  buzzer s' = buzzer s /\
  isAvoiding s' = isAvoiding s /\
  (motors s = M_STOP -> motors s' = M_STOP).
Proof.
  intros Hi Hm. cbv zeta. rewrite (loop_silent_manual i s Hi Hm).
  destruct (signalTimeout <? _).
  - destruct (stopCar_spec s) as (H1 & H2 & H3 & H4 & H5 & H6 & _).
    rewrite H2, H3, H4, H5, H6. repeat split; auto.
  - repeat split; auto.
Qed.

Lemma run_silent_manual (ins : list Inputs) :
  forall s,
    Forall silent ins -> isSmartForward s = false ->
    let s' := run ins s in
    isSmartForward s' = false /\
    lastIRSignalTime s' = lastIRSignalTime s /\
    lastObstacleCheck s' = lastObstacleCheck s /\
    buzzer s' = buzzer s /\
    isAvoiding s' = isAvoiding s /\
    (motors s = M_STOP -> motors s' = M_STOP).
Proof.
  induction ins as [|i rest IH]; intros s Hall Hm; cbn.
  - repeat split; auto.
  - inversion Hall as [|? ? Hi Hrest]; subst.
    destruct (loop_silent_manual_frame i s Hi Hm) as (H1 & H2 & H3 & H4 & H5 & H6).
    destruct (IH (loop i s) Hrest H1) as (K1 & K2 & K3 & K4 & K5 & K6).
    rewrite K2, K3, K4, K5. repeat split; auto.
Qed.

Lemma loop_expired (i : Inputs) (s : State) :
  silent i -> isSmartForward s = false ->
  expired (lastIRSignalTime s) i ->
  loop i s = stopCar s.
Proof.
  intros Hi Hm He. rewrite (loop_silent_manual i s Hi Hm).
  unfold expired in He. apply Z.ltb_lt in He. now rewrite He.
Qed.

Lemma run_expired_log (ins : list Inputs) :
  forall s,
    Forall silent ins -> isSmartForward s = false ->
    Forall (expired (lastIRSignalTime s)) ins ->
    serial (run ins s) = repeat STOPPED (length ins) ++ serial s.
Proof.
  induction ins as [|i rest IH]; intros s Hall Hm Hex; cbn [run length].
  - reflexivity.
  - inversion Hall as [|? ? Hi Hrest]; subst.
    inversion Hex as [|? ? Hei Herest]; subst.
    rewrite (loop_expired i s Hi Hm Hei).
    rewrite IH; try assumption.
    change (serial (stopCar s)) with ([STOPPED] ++ serial s).
    rewrite app_assoc, <- repeat_cons. reflexivity.
Qed.

(** In real time: when the last frame was stamped at [t] ms and the
    watchdog reads the clock more than 200 ms and less than one counter
    period later, the comparison of line 77 succeeds. *)
Lemma expired_of_real_silence (t : Z) (i : Inputs) :
  signalTimeout < clk_wd i - t < U32.modulus ->
  expired (millis t) i.
Proof.
  intros H. unfold expired.
  rewrite usub_millis_exact; unfold signalTimeout in *; lia.
Qed.

(** C1. Consider consecutive iterations [ins] in manual mode in which no
    frame is decoded and the watchdog comparison finds more than 200
    counter units elapsed since the last frame. Every one of them calls
    [stopCar], and nothing else: the log grows by one STOPPED line per
    iteration. From the first of them on the motor pins show the stop
    pattern and the mode stays manual, and this continues through any
    further iterations [later] without a frame, whatever their clocks
    read. *)
Theorem watchdog_stops_and_holds (s : State) (ins later : list Inputs) :
  isSmartForward s = false ->
  Forall silent (ins ++ later) ->
  Forall (expired (lastIRSignalTime s)) ins ->
  ins <> [] ->
  (forall pre i post,
      ins = pre ++ i :: post ->
      loop i (run pre s) = stopCar (run pre s)) /\
  serial (run ins s) = repeat STOPPED (length ins) ++ serial s /\
  (forall pre post,
      ins ++ later = pre ++ post -> pre <> [] ->
      motors (run pre s) = M_STOP /\ isSmartForward (run pre s) = false).
Proof.
  intros Hm Hall Hex Hne.
  apply Forall_app in Hall as [Hins Hlater].
  split; [|split].
  - intros pre i post ->.
    apply Forall_app in Hins as [Hpre Hipost].
    apply Forall_app in Hex as [_ Hex].
    inversion Hipost as [|? ? Hi _]; subst.
    inversion Hex as [|? ? Hei _]; subst.
    destruct (run_silent_manual pre s Hpre Hm) as (K1 & K2 & _).
    apply loop_expired; [exact Hi | exact K1 | now rewrite K2].
  - now apply run_expired_log.
  - intros pre post Heq Hpre.
    destruct ins as [|i0 ins']; [contradiction|].
    destruct pre as [|p pre']; [contradiction|].
    cbn in Heq. injection Heq as <- Htail.
    inversion Hins as [|? ? Hi0 Hins']; subst.
    inversion Hex as [|? ? He0 _]; subst.
    assert (Hsil : Forall silent pre').
    { assert (Hboth : Forall silent (pre' ++ post))
        by (rewrite <- Htail; apply Forall_app; split; assumption).
      now apply Forall_app in Hboth as [? _]. }
    cbn [run]. rewrite (loop_expired i0 s Hi0 Hm He0).
    destruct (stopCar_spec s) as (S1 & S2 & _).
    rewrite Hm in S2.
    destruct (run_silent_manual pre' (stopCar s) Hsil S2) as (K1 & _ & _ & _ & _ & K6).
    split; [exact (K6 S1) | exact K1].
Qed.

Lemma watchdog_stops_and_holds_witness :
  motors (run forward_at_1000 boot) = M_FORWARD /\
  serial (run polls_after_timeout (run forward_at_1000 boot)) =
    [STOPPED; STOPPED; STOPPED] ++ serial (run forward_at_1000 boot) /\
  motors (run (polls_after_timeout ++ poll_after_rollover)
            (run forward_at_1000 boot)) = M_STOP.
Proof.
  set (s := run forward_at_1000 boot).
  set (ins := polls_after_timeout).
  set (later := poll_after_rollover).
  assert (Hm : isSmartForward s = false) by (vm_compute; reflexivity).
  assert (Hsil : Forall silent (ins ++ later))
    by (repeat constructor).
  assert (Hex : Forall (expired (lastIRSignalTime s)) ins)
    by (repeat constructor; vm_compute; reflexivity).
  assert (Hne : ins <> []) by discriminate.
  destruct (watchdog_stops_and_holds s ins later Hm Hsil Hex Hne)
    as (_ & Hlog & Hhold).
  split; [vm_compute; reflexivity|]. split; [exact Hlog|].
  apply (Hhold (ins ++ later) []); [now rewrite app_nil_r | discriminate].
Defined.

(** ** Dispatch on the command code *)

Lemma recognized_false (c : Z) :
  recognized c = false ->
  (c =? IR_FORWARD) = false /\ (c =? IR_BACKWARD) = false /\
  (c =? IR_LEFT) = false /\ (c =? IR_RIGHT) = false /\
  (c =? IR_SMART_FWD) = false.
Proof.
  unfold recognized. cbn [existsb]. intros H.
  repeat (apply orb_false_elim in H; destruct H as [? H]).
  auto.
Qed.

Lemma handleIRCommand_unrecognized (c : Z) (s : State) :
  recognized c = false ->
  handleIRCommand c s = println (ReceivedCommand c) s.
Proof.
  intros H. apply recognized_false in H as (H1 & H2 & H3 & H4 & H5).
  unfold handleIRCommand. rewrite H1, H2, H3, H4, H5. reflexivity.
Qed.

(** The five branches of the [switch], and the fall-through. *)
Lemma handleIRCommand_cases (c : Z) (s : State) :
  let s0 := println (ReceivedCommand c) s in
  handleIRCommand c s =
    (if isSmartForward s then s0 else moveForward s0) \/
  handleIRCommand c s = moveBackward (stopSmartMode s0) \/
  handleIRCommand c s = turnLeft (stopSmartMode s0) \/
  handleIRCommand c s = turnRight (stopSmartMode s0) \/
  handleIRCommand c s = toggleSmartMode s0 \/
  handleIRCommand c s = s0.
Proof.
  unfold handleIRCommand.
  destruct (c =? IR_FORWARD).
  { left. unfold seq, ifb, skip. cbn. destruct (isSmartForward s); reflexivity. }
  destruct (c =? IR_BACKWARD); [right; left; reflexivity|].
  destruct (c =? IR_LEFT); [right; right; left; reflexivity|].
  destruct (c =? IR_RIGHT); [right; right; right; left; reflexivity|].
  destruct (c =? IR_SMART_FWD); [right; right; right; right; left; reflexivity|].
  right; right; right; right; right; reflexivity.
Qed.

Lemma handleIRCommand_frame (c : Z) (s : State) :
  lastObstacleCheck (handleIRCommand c s) = lastObstacleCheck s /\
  lastIRSignalTime (handleIRCommand c s) = lastIRSignalTime s /\
  isAvoiding (handleIRCommand c s) = isAvoiding s.
Proof.
  destruct (handleIRCommand_cases c s) as [H | [H | [H | [H | [H | H]]]]];
    rewrite H; clear H;
    destruct s as [sf av lo li a b c0 d bz tr log]; destruct sf; crunch.
Qed.

(** ** The buzzer is silent in manual mode *)

Lemma quiet_setup (p : State) : quiet_in_manual (setup p).
Proof. intros _. reflexivity. Qed.

Lemma quiet_handleIRCommand (c : Z) (s : State) :
  quiet_in_manual s -> quiet_in_manual (handleIRCommand c s).
Proof.
  unfold quiet_in_manual. intros Hq.
  destruct (handleIRCommand_cases c s) as [H | [H | [H | [H | [H | H]]]]];
    rewrite H; clear H;
    destruct s as [sf av lo li a b c0 d bz tr log]; destruct sf;
    cbn in Hq; try (rewrite (Hq eq_refl)); vm_compute; congruence.
Qed.

Lemma quiet_loop_ir (i : Inputs) (s : State) :
  quiet_in_manual s -> quiet_in_manual (loop_ir i s).
Proof.
  intros Hq. unfold loop_ir. destruct (ir i) as [c|]; [|exact Hq].
  rewrite seq_apply. apply quiet_handleIRCommand. exact Hq.
Qed.

Lemma quiet_loop_watchdog (i : Inputs) (s : State) :
  quiet_in_manual s -> quiet_in_manual (loop_watchdog i s).
Proof.
  intros Hq. unfold loop_watchdog, ifb, skip.
  destruct (_ && _); [|exact Hq]. exact Hq.
Qed.

Lemma quiet_loop_smart (i : Inputs) (s : State) :
  quiet_in_manual s -> quiet_in_manual (loop_smart i s).
Proof.
  intros Hq. destruct (isSmartForward s) eqn:Hm.
  - rewrite (loop_smart_smart i s Hm).
    destruct (due _ i); [|exact Hq].
    intros Hman.
    destruct (checkObstacle_frame (clk_cycle i) (echo i) s) as (Hmode & _).
    congruence.
  - now rewrite (loop_smart_manual i s Hm).
Qed.

Lemma quiet_loop (i : Inputs) (s : State) :
  quiet_in_manual s -> quiet_in_manual (loop i s).
Proof.
  intros Hq. rewrite loop_blocks.
  now apply quiet_loop_smart, quiet_loop_watchdog, quiet_loop_ir.
Qed.

(** C8. In every state the sketch reaches at the top of [loop()], manual
    mode implies that the buzzer pin is low. *)
Theorem buzzer_off_in_manual (s : State) :
  reachable s -> isSmartForward s = false -> buzzer s = LOW.
Proof.
  intros Hr. change (quiet_in_manual s).
  induction Hr as [p _|i s _ IH].
  - apply quiet_setup.
  - now apply quiet_loop.
Qed.

Lemma buzzer_off_in_manual_witness :
  buzzer (run smart_with_obstacle boot) = HIGH /\
  isSmartForward (run override_while_avoiding boot) = false /\
  buzzer (run override_while_avoiding boot) = LOW.
Proof.
  assert (Hm : isSmartForward (run override_while_avoiding boot) = false)
    by (vm_compute; reflexivity).
  split; [vm_compute; reflexivity|]. split; [exact Hm|].
  exact (buzzer_off_in_manual _ (reachable_run _ _ reach_boot) Hm).
Defined.

(** ** Toggling smart mode *)

Lemma loop_ir_frame (i : Inputs) (s : State) :
  lastObstacleCheck (loop_ir i s) = lastObstacleCheck s /\
  isAvoiding (loop_ir i s) = isAvoiding s.
Proof.
  unfold loop_ir. destruct (ir i) as [c|]; [|split; reflexivity].
  rewrite seq_apply.
  destruct (handleIRCommand_frame c (set_lastIRSignalTime (millis (clk_ir i)) s))
    as (H1 & _ & H3).
  rewrite H1, H3. split; reflexivity.
Qed.

Lemma loop_ir_toggle (i : Inputs) (s : State) :
  ir i = Some IR_SMART_FWD ->
  loop_ir i s =
  toggleSmartMode
    (println (ReceivedCommand IR_SMART_FWD)
       (set_lastIRSignalTime (millis (clk_ir i)) s)).
Proof. unfold loop_ir. intros ->. reflexivity. Qed.

Lemma loop_smart_mode (i : Inputs) (s : State) :
  isSmartForward (loop_smart i s) = isSmartForward s.
Proof.
  destruct (isSmartForward s) eqn:Hm.
  - rewrite (loop_smart_smart i s Hm).
    destruct (due _ i); [|exact Hm].
    destruct (checkObstacle_frame (clk_cycle i) (echo i) s) as (Hmode & _).
    congruence.
  - now rewrite (loop_smart_manual i s Hm).
Qed.

Lemma loop_toggle_on (i : Inputs) (s : State) :
  isSmartForward s = false -> ir i = Some IR_SMART_FWD ->
  isSmartForward (loop i s) = true.
Proof.
  intros Hm Hi. rewrite loop_blocks, loop_smart_mode, (loop_ir_toggle i s Hi).
  set (s0 := println _ _).
  destruct (toggleSmartMode_on s0 Hm) as (H1 & _).
  now rewrite (loop_watchdog_smart i _ H1).
Qed.

Lemma loop_toggle_off (i : Inputs) (s : State) :
  isSmartForward s = true -> ir i = Some IR_SMART_FWD ->
  isSmartForward (loop i s) = false /\
  motors (loop i s) = M_STOP /\
  buzzer (loop i s) = LOW.
Proof.
  intros Hm Hi. rewrite loop_blocks, (loop_ir_toggle i s Hi).
  set (s0 := println _ _).
  destruct (toggleSmartMode_off s0 Hm) as (H1 & H2 & _ & H4 & _).
  rewrite (loop_watchdog_manual i _ H1).
  destruct (signalTimeout <? _).
  - rewrite loop_smart_manual by exact H1.
    destruct (stopCar_spec (toggleSmartMode s0)) as (S1 & S2 & _ & _ & _ & S6 & _).
    rewrite S1, S2, S6. auto.
  - rewrite loop_smart_manual by exact H1. auto.
Qed.

Lemma run_silent_smart (ins : list Inputs) :
  forall s,
    Forall silent ins -> isSmartForward s = true ->
    isSmartForward (run ins s) = true.
Proof.
  induction ins as [|i rest IH]; intros s Hall Hm; cbn [run].
  - exact Hm.
  - inversion Hall as [|? ? Hi Hrest]; subst.
    apply IH; [exact Hrest|].
    rewrite loop_blocks, loop_smart_mode, (loop_ir_silent i s Hi).
    now rewrite (loop_watchdog_smart i s Hm).
Qed.

(** C7. [toggleSmartMode] negates the mode flag and leaves the avoidance
    flag and both timestamps as they were. Starting in manual mode, an
    iteration that receives the smart-forward code ends in smart mode; it
    stays in smart mode through any number of iterations without a frame
    (during which the avoidance cycle may run); and the iteration that
    receives the code a second time ends in manual mode with the motor
    pins in the stop pattern and the buzzer low. *)
Theorem toggle_round_trip
    (s0 s : State) (first second : Inputs) (between : list Inputs) :
  isSmartForward s = false ->
  ir first = Some IR_SMART_FWD ->
  Forall silent between ->
  ir second = Some IR_SMART_FWD ->
  (isSmartForward (toggleSmartMode s0) = negb (isSmartForward s0) /\
   isAvoiding (toggleSmartMode s0) = isAvoiding s0 /\
   lastObstacleCheck (toggleSmartMode s0) = lastObstacleCheck s0 /\
   lastIRSignalTime (toggleSmartMode s0) = lastIRSignalTime s0) /\
  isSmartForward (run (first :: between) s) = true /\
  (let s' := run (first :: between ++ [second]) s in
   isSmartForward s' = false /\ motors s' = M_STOP /\ buzzer s' = LOW).
Proof.
  intros Hm H1 Hsil H2.
  assert (Hmid : isSmartForward (run (first :: between) s) = true).
  { cbn [run]. apply run_silent_smart; [exact Hsil|].
    now apply loop_toggle_on. }
  split; [|split].
  - destruct s0 as [sf av lo li a b c d bz tr log]; destruct sf; crunch.
  - exact Hmid.
  - cbv zeta.
    change (first :: between ++ [second]) with ((first :: between) ++ [second]).
    rewrite run_app. cbn [run].
    now apply loop_toggle_off.
Qed.

Lemma toggle_round_trip_witness :
  buzzer (run (frame_at IR_SMART_FWD 1000 :: polls_in_smart_mode) boot) = HIGH /\
  motors (run (frame_at IR_SMART_FWD 1000 :: polls_in_smart_mode) boot) = M_RIGHT /\
  isSmartForward
    (run (frame_at IR_SMART_FWD 1000 :: polls_in_smart_mode ++
          [frame_at IR_SMART_FWD 2000]) boot) = false /\
  motors
    (run (frame_at IR_SMART_FWD 1000 :: polls_in_smart_mode ++
          [frame_at IR_SMART_FWD 2000]) boot) = M_STOP /\
  buzzer
    (run (frame_at IR_SMART_FWD 1000 :: polls_in_smart_mode ++
          [frame_at IR_SMART_FWD 2000]) boot) = LOW.
Proof.
  set (first := frame_at IR_SMART_FWD 1000).
  set (second := frame_at IR_SMART_FWD 2000).
  set (between := polls_in_smart_mode).
  split; [vm_compute; reflexivity|]. split; [vm_compute; reflexivity|].
  refine (match toggle_round_trip boot boot first second between
                  eq_refl eq_refl _ eq_refl with
          | conj _ (conj _ H) => H
          end).
  repeat constructor.
Defined.

(** ** Unrecognized codes *)

Lemma loop_ir_unrecognized (i : Inputs) (c : Z) (s : State) :
  ir i = Some c -> recognized c = false ->
  loop_ir i s =
  println (ReceivedCommand c) (set_lastIRSignalTime (millis (clk_ir i)) s).
Proof.
  intros Hi Hc. unfold loop_ir. rewrite Hi, seq_apply.
  now apply handleIRCommand_unrecognized.
Qed.

Lemma received_log_cons (i : Inputs) (rest : list Inputs) :
  received_log (i :: rest) =
  received_log rest ++
  match ir i with Some c => [ReceivedCommand c] | None => [] end.
Proof.
  unfold received_log. cbn [flat_map]. rewrite rev_app_distr.
  destruct (ir i); reflexivity.
Qed.

Lemma received_log_no_stop (ins : list Inputs) :
  ~ In STOPPED (received_log ins).
Proof.
  unfold received_log. rewrite <- in_rev, in_flat_map.
  intros (i & _ & Hin). destruct (ir i); cbn in Hin.
  - destruct Hin as [H | []]. discriminate H.
  - exact Hin.
Qed.

(** One iteration of a kept-alive run in manual mode: the watchdog does
    not fire, and only the timestamp and the log change. *)
Lemma loop_kept_alive (i : Inputs) (s : State) :
  isSmartForward s = false ->
  match ir i with Some c => recognized c = false | None => True end ->
  U32.usub (millis (clk_wd i))
    (match ir i with Some _ => millis (clk_ir i) | None => lastIRSignalTime s end)
    <= signalTimeout ->
  let s' := loop i s in
  isSmartForward s' = false /\
  lastIRSignalTime s' =
    match ir i with Some _ => millis (clk_ir i) | None => lastIRSignalTime s end /\
  motors s' = motors s /\ buzzer s' = buzzer s /\
  isAvoiding s' = isAvoiding s /\
  lastObstacleCheck s' = lastObstacleCheck s /\
  serial s' =
    match ir i with Some c => [ReceivedCommand c] | None => [] end ++ serial s.
Proof.
  intros Hm Hc Hw. cbv zeta. apply Z.ltb_ge in Hw.
  destruct (ir i) as [c|] eqn:Hi.
  - rewrite loop_blocks, (loop_ir_unrecognized i c s Hi Hc).
    rewrite loop_watchdog_manual by exact Hm.
    cbn [lastIRSignalTime println set_lastIRSignalTime]. rewrite Hw.
    rewrite loop_smart_manual by exact Hm.
    repeat split. exact Hm.
  - rewrite (loop_silent_manual i s Hi Hm), Hw. repeat split. exact Hm.
Qed.

Lemma run_kept_alive (ins : list Inputs) :
  forall s,
    isSmartForward s = false ->
    kept_alive (lastIRSignalTime s) ins = true ->
    let s' := run ins s in
    isSmartForward s' = false /\
    motors s' = motors s /\ buzzer s' = buzzer s /\
    isAvoiding s' = isAvoiding s /\
    lastObstacleCheck s' = lastObstacleCheck s /\
    serial s' = received_log ins ++ serial s.
Proof.
  induction ins as [|i rest IH]; intros s Hm Hk; cbv zeta.
  - repeat split. exact Hm.
  - cbn [kept_alive] in Hk.
    apply andb_true_iff in Hk as [Hk Hrest].
    apply andb_true_iff in Hk as [Hc Hw].
    apply Z.leb_le in Hw.
    assert (Hc' : match ir i with Some c => recognized c = false | None => True end).
    { destruct (ir i); [now apply negb_true_iff in Hc | exact I]. }
    destruct (loop_kept_alive i s Hm Hc' Hw) as (H1 & H2 & H3 & H4 & H5 & H6 & H7).
    rewrite <- H2 in Hrest.
    destruct (IH (loop i s) H1 Hrest) as (K1 & K2 & K3 & K4 & K5 & K6).
    cbn [run]. rewrite K2, K3, K4, K5, K6, H7, received_log_cons, <- app_assoc.
    repeat split; assumption.
Qed.

(** C10. A frame whose code is none of the five commands still restarts
    the watchdog: handling it sets [lastIRSignalTime] to the current time
    and prints the code, and leaves the mode, the avoidance flag, the
    motor pins, the buzzer and the cycle timestamp alone. Hence, in
    manual mode, while such frames keep arriving so that no watchdog
    comparison finds more than 200 units elapsed since the latest one,
    [stopCar] is never called: the motor pins keep their pattern and the
    log gains nothing but the received-code lines. *)
Theorem unrecognized_code_rearms_watchdog
    (s : State) (i : Inputs) (c : Z) (s0 : State) (ins : list Inputs) :
  ir i = Some c ->
  recognized c = false ->
  isSmartForward s0 = false ->
  kept_alive (lastIRSignalTime s0) ins = true ->
  (let s' := loop_ir i s in
   lastIRSignalTime s' = millis (clk_ir i) /\
   isSmartForward s' = isSmartForward s /\
   isAvoiding s' = isAvoiding s /\
   motors s' = motors s /\
   buzzer s' = buzzer s /\
   lastObstacleCheck s' = lastObstacleCheck s /\
   serial s' = ReceivedCommand c :: serial s) /\
  (let s' := run ins s0 in
   isSmartForward s' = false /\
   motors s' = motors s0 /\
   buzzer s' = buzzer s0 /\
   isAvoiding s' = isAvoiding s0 /\
   serial s' = received_log ins ++ serial s0 /\
   ~ In STOPPED (received_log ins)).
Proof.
  intros Hi Hc Hm Hk. split.
  - cbv zeta. rewrite (loop_ir_unrecognized i c s Hi Hc). repeat split.
  - destruct (run_kept_alive ins s0 Hm Hk) as (K1 & K2 & K3 & K4 & _ & K6).
    repeat split; try assumption. apply received_log_no_stop.
Qed.

Lemma unrecognized_code_rearms_watchdog_witness :
  lastIRSignalTime
    (loop_ir (frame_at IR_UNKNOWN 1150) (run forward_at_1000 boot)) = 1150 /\
  motors (run unknown_stream (run forward_at_1000 boot)) = M_FORWARD /\
  motors (run (map idle_at [1100; 1150; 1250]) (run forward_at_1000 boot)) = M_STOP.
Proof.
  set (s0 := run forward_at_1000 boot).
  destruct (unrecognized_code_rearms_watchdog
              s0 (frame_at IR_UNKNOWN 1150) IR_UNKNOWN s0 unknown_stream
              eq_refl eq_refl eq_refl)
    as ((Ht & _) & (_ & Hmot & _)).
  { vm_compute. reflexivity. }
  split; [exact Ht|]. split; [rewrite Hmot; vm_compute; reflexivity|].
  vm_compute. reflexivity.
Defined.

(** ** Cadence of the avoidance cycle *)

Lemma usub_millis_elapsed (t0 t : Z) :
  t0 <= t ->
  obstacleCheckInterval < U32.usub (millis t) (millis t0) ->
  obstacleCheckInterval < t - t0.
Proof.
  intros Hle H.
  destruct (Z_lt_le_dec obstacleCheckInterval (t - t0)) as [Hgt | Hsmall];
    [exact Hgt|].
  rewrite usub_millis_exact in H; [exact H|].
  unfold obstacleCheckInterval, U32.modulus in *. lia.
Qed.

Lemma before_smart_frame (i : Inputs) (s : State) :
  lastObstacleCheck (before_smart i s) = lastObstacleCheck s.
Proof.
  unfold before_smart, loop_watchdog, ifb, skip.
  destruct (loop_ir_frame i s) as (H & _).
  destruct (_ && _); exact H.
Qed.

Lemma loop_runs_cycle (i : Inputs) (s : State) :
  loop i s =
  if runs_cycle i s
  then checkObstacle (clk_cycle i) (echo i) (before_smart i s)
  else before_smart i s.
Proof.
  rewrite loop_blocks. fold (before_smart i s). unfold runs_cycle.
  destruct (isSmartForward (before_smart i s)) eqn:Hm; cbn [andb].
  - now apply loop_smart_smart.
  - now apply loop_smart_manual.
Qed.

Lemma loop_stamp (i : Inputs) (s : State) :
  lastObstacleCheck (loop i s) =
  if runs_cycle i s then millis (clk_cycle i) else lastObstacleCheck s.
Proof.
  rewrite loop_runs_cycle. destruct (runs_cycle i s).
  - now destruct (checkObstacle_frame (clk_cycle i) (echo i) (before_smart i s))
      as (_ & _ & H).
  - apply before_smart_frame.
Qed.

Lemma last_cons_default (a d : Z) (l : list Z) :
  last (a :: l) d = last l a.
Proof.
  revert a d. induction l as [|b l IH]; intros a d; [reflexivity|].
  change (last (a :: b :: l) d) with (last (b :: l) d).
  now rewrite (IH b d), (IH b a).
Qed.

Lemma run_last_stamp (ins : list Inputs) :
  forall s t0,
    lastObstacleCheck s = millis t0 ->
    lastObstacleCheck (run ins s) = millis (last (cycle_times ins s) t0).
Proof.
  induction ins as [|i rest IH]; intros s t0 Hs; cbn [run cycle_times].
  - exact Hs.
  - pose proof (loop_stamp i s) as Hl.
    destruct (runs_cycle i s).
    + cbn [app]. rewrite last_cons_default. now apply IH.
    + cbn [app]. apply IH. now rewrite Hl.
Qed.

Lemma clock_monotone_weaken (ins : list Inputs) (t t' : Z) :
  t <= t' -> clock_monotone t' ins -> clock_monotone t ins.
Proof.
  destruct ins as [|i rest]; cbn; [trivial|].
  intros Hle (H1 & H2 & H3 & H4 & H5). repeat split; try assumption. lia.
Qed.

Lemma cycle_times_spaced (ins : list Inputs) :
  forall s t0,
    lastObstacleCheck s = millis t0 ->
    clock_monotone t0 ins ->
    spaced obstacleCheckInterval t0 (cycle_times ins s).
Proof.
  induction ins as [|i rest IH]; intros s t0 Hs Hclk; cbn [cycle_times].
  - exact I.
  - cbn [clock_monotone] in Hclk.
    destruct Hclk as (H1 & H2 & H3 & H4 & Hrest).
    pose proof (loop_stamp i s) as Hl.
    destruct (runs_cycle i s) eqn:Hrun; cbn [app].
    + cbn [spaced]. split; [|now apply IH].
      unfold runs_cycle in Hrun. apply andb_true_iff in Hrun as [_ Hdue].
      rewrite before_smart_frame, Hs in Hdue.
      unfold due in Hdue. apply Z.ltb_lt in Hdue.
      apply usub_millis_elapsed in Hdue; lia.
    + apply IH; [now rewrite Hl|].
      apply clock_monotone_weaken with (t' := clk_cycle i); [lia | exact Hrest].
Qed.

(** C6, as the sketch has it. In every iteration the smart-mode block
    runs [checkObstacle] exactly when the mode is smart forward and the
    counter shows strictly more than 300 units since the last cycle stamp;
    otherwise the block does nothing. Over a run whose clock reads never
    go back, the times at which cycles are stamped are more than 300 ms
    apart from one another and from the stamp the run starts with, and the
    last of them is the stamp the run ends with. *)
Theorem avoidance_cycle_cadence (s : State) (t0 : Z) (ins : list Inputs) :
  lastObstacleCheck s = millis t0 ->
  clock_monotone t0 ins ->
  (forall pre i post,
      ins = pre ++ i :: post ->
      let s1 := run pre s in
      lastObstacleCheck (before_smart i s1) = lastObstacleCheck s1 /\
      loop i s1 =
        if isSmartForward (before_smart i s1) &&
           (obstacleCheckInterval <?
              U32.usub (millis (clk_chk i)) (lastObstacleCheck s1))
        then checkObstacle (clk_cycle i) (echo i) (before_smart i s1)
        else before_smart i s1) /\
  spaced obstacleCheckInterval t0 (cycle_times ins s) /\
  lastObstacleCheck (run ins s) = millis (last (cycle_times ins s) t0).
Proof.
  intros Hs Hclk. split; [|split].
  - intros pre i post _. cbv zeta. split; [apply before_smart_frame|].
    rewrite loop_runs_cycle. unfold runs_cycle, due.
    now rewrite before_smart_frame.
  - now apply cycle_times_spaced.
  - now apply run_last_stamp.
Qed.

Lemma avoidance_cycle_cadence_witness :
  cycle_times cadence_run boot = [1000; 1301] /\
  spaced obstacleCheckInterval 0 (cycle_times cadence_run boot) /\
  lastObstacleCheck (run cadence_run boot) = 1301.
Proof.
  assert (Hclk : clock_monotone 0 cadence_run)
    by (vm_compute; repeat split; discriminate).
  destruct (avoidance_cycle_cadence boot 0 cadence_run eq_refl Hclk)
    as (_ & Hsp & Hlast).
  split; [vm_compute; reflexivity|]. split; [exact Hsp|].
  rewrite Hlast. vm_compute. reflexivity.
Defined.

(** C6 as stated fails at the boundary. Smart mode is entered at 1000 ms
    and the cycle runs there; at 1300 ms exactly 300 units have elapsed,
    and the iteration does not run the cycle: it leaves the state as it
    was. The cycle runs one millisecond later. *)
Lemma cycle_skipped_at_exact_interval :
  isSmartForward (run smart_on_at_1000 boot) = true /\
  lastObstacleCheck (run smart_on_at_1000 boot) = millis 1000 /\
  U32.usub (millis (clk_chk (idle_at 1300)))
           (lastObstacleCheck (run smart_on_at_1000 boot))
    = obstacleCheckInterval /\
  runs_cycle (idle_at 1300) (run smart_on_at_1000 boot) = false /\
  loop (idle_at 1300) (run smart_on_at_1000 boot) = run smart_on_at_1000 boot /\
  runs_cycle (idle_at 1301) (run smart_on_at_1000 boot) = true.
Proof. vm_compute. repeat split. Qed.

(** * Further properties of the receiver *)

(** ** Mode and timestamp after any iteration *)

Lemma handleIRCommand_mode (c : Z) (s : State) :
  isSmartForward (handleIRCommand c s) =
  if c =? IR_SMART_FWD then negb (isSmartForward s)
  else if existsb (Z.eqb c) [IR_BACKWARD; IR_LEFT; IR_RIGHT] then false
  else isSmartForward s.
Proof.
  unfold handleIRCommand. cbn [existsb].
  destruct (c =? IR_FORWARD) eqn:EF.
  { apply Z.eqb_eq in EF; subst c.
    destruct s as [sf av lo li a b c0 d bz tr log]; destruct sf; crunch. }
  destruct (c =? IR_BACKWARD) eqn:EB.
  { apply Z.eqb_eq in EB; subst c.
    destruct s as [sf av lo li a b c0 d bz tr log]; destruct sf; crunch. }
  destruct (c =? IR_LEFT) eqn:EL.
  { apply Z.eqb_eq in EL; subst c.
    destruct s as [sf av lo li a b c0 d bz tr log]; destruct sf; crunch. }
  destruct (c =? IR_RIGHT) eqn:ER.
  { apply Z.eqb_eq in ER; subst c.
    destruct s as [sf av lo li a b c0 d bz tr log]; destruct sf; crunch. }
  destruct (c =? IR_SMART_FWD) eqn:ES.
  { destruct s as [sf av lo li a b c0 d bz tr log]; destruct sf; crunch. }
  reflexivity.
Qed.

Lemma loop_watchdog_frame (i : Inputs) (s : State) :
  isSmartForward (loop_watchdog i s) = isSmartForward s /\
  lastIRSignalTime (loop_watchdog i s) = lastIRSignalTime s /\
  lastObstacleCheck (loop_watchdog i s) = lastObstacleCheck s /\
  buzzer (loop_watchdog i s) = buzzer s /\
  isAvoiding (loop_watchdog i s) = isAvoiding s.
Proof.
  unfold loop_watchdog, ifb, skip. destruct (_ && _); repeat split.
Qed.

Lemma loop_smart_stamp (i : Inputs) (s : State) :
  lastIRSignalTime (loop_smart i s) = lastIRSignalTime s.
Proof.
  destruct (isSmartForward s) eqn:Hm.
  - rewrite (loop_smart_smart i s Hm). destruct (due _ i); [|reflexivity].
    now destruct (checkObstacle_frame (clk_cycle i) (echo i) s) as (_ & H & _).
  - now rewrite (loop_smart_manual i s Hm).
Qed.

(** X1. The mode after an iteration depends only on the mode before it
    and on the frame decoded: the smart-forward code negates it,
    Backward, Left and Right make it manual, and anything else (Forward,
    an unknown code, no frame at all, the watchdog, the avoidance cycle)
    leaves it as it was. *)
Theorem mode_after_iteration (i : Inputs) (s : State) :
  isSmartForward (loop i s) =
  match ir i with
  | None => isSmartForward s
  | Some c =>
      if c =? IR_SMART_FWD then negb (isSmartForward s)
      else if existsb (Z.eqb c) [IR_BACKWARD; IR_LEFT; IR_RIGHT] then false
      else isSmartForward s
  end.
Proof.
  rewrite loop_blocks, loop_smart_mode.
  destruct (loop_watchdog_frame i (loop_ir i s)) as (-> & _).
  unfold loop_ir. destruct (ir i) as [c|]; [|reflexivity].
  rewrite seq_apply, handleIRCommand_mode. reflexivity.
Qed.

(** X2. Every decoded frame, whatever its code and whatever the mode,
    leaves [lastIRSignalTime] at the time read on line 71, and an
    iteration without a frame never writes it. *)
Theorem command_stamp_after_iteration (i : Inputs) (s : State) :
  lastIRSignalTime (loop i s) =
  match ir i with
  | Some _ => millis (clk_ir i)
  | None => lastIRSignalTime s
  end.
Proof.
  rewrite loop_blocks, loop_smart_stamp.
  destruct (loop_watchdog_frame i (loop_ir i s)) as (_ & -> & _).
  unfold loop_ir. destruct (ir i) as [c|]; [|reflexivity].
  rewrite seq_apply.
  now destruct (handleIRCommand_frame c (set_lastIRSignalTime (millis (clk_ir i)) s))
    as (_ & -> & _).
Qed.

(** ** Driving by hand *)

Lemma handleIRCommand_manual_drive
    (s : State) (c : Z) (m : bool * bool * bool * bool) :
  isSmartForward s = false ->
  In (c, m) [ (IR_FORWARD, M_FORWARD); (IR_BACKWARD, M_BACKWARD);
              (IR_LEFT, M_LEFT); (IR_RIGHT, M_RIGHT) ] ->
  let s' := handleIRCommand c s in
  isSmartForward s' = false /\ motors s' = m /\
  buzzer s' = buzzer s /\ isAvoiding s' = isAvoiding s /\
  lastIRSignalTime s' = lastIRSignalTime s /\
  lastObstacleCheck s' = lastObstacleCheck s.
Proof.
  intros Hs Hin.
  destruct s as [sf av lo li a b c0 d bz tr log]; cbn in Hs; subst sf.
  destruct Hin as [E | [E | [E | [E | []]]]];
    apply (f_equal (fun x => (fst x, snd x))) in E;
    cbn in E; injection E as <- <-; crunch.
Qed.

(** X3. In manual mode an iteration that decodes Forward, Backward, Left
    or Right ends with the motor pins in that manoeuvre's pattern, unless
    the watchdog of the same iteration reads the clock more than 200
    units after the frame was stamped, in which case it ends stopped. The
    mode stays manual and the buzzer and the avoidance flag are not
    touched. *)
Theorem manual_drive_iteration
    (i : Inputs) (s : State) (c : Z) (m : bool * bool * bool * bool) :
  isSmartForward s = false ->
  ir i = Some c ->
  In (c, m) [ (IR_FORWARD, M_FORWARD); (IR_BACKWARD, M_BACKWARD);
              (IR_LEFT, M_LEFT); (IR_RIGHT, M_RIGHT) ] ->
  let s' := loop i s in
  motors s' =
    (if signalTimeout <? U32.usub (millis (clk_wd i)) (millis (clk_ir i))
     then M_STOP else m) /\
  isSmartForward s' = false /\
  buzzer s' = buzzer s /\
  isAvoiding s' = isAvoiding s.
Proof.
  intros Hs Hi Hin. cbv zeta.
  rewrite loop_blocks. unfold loop_ir. rewrite Hi, seq_apply.
  set (s1 := set_lastIRSignalTime (millis (clk_ir i)) s).
  destruct (handleIRCommand_manual_drive s1 c m Hs Hin)
    as (H1 & H2 & H3 & H4 & H5 & _).
  rewrite (loop_watchdog_manual i _ H1), H5.
  change (lastIRSignalTime s1) with (millis (clk_ir i)).
  destruct (signalTimeout <? _).
  - rewrite loop_smart_manual by exact H1.
    destruct (stopCar_spec (handleIRCommand c s1)) as (S1 & S2 & S3 & _ & _ & S6 & _).
    rewrite S1, S2, S3, S6, H1, H3, H4. repeat split.
  - rewrite loop_smart_manual by exact H1.
    rewrite H1, H2, H3, H4. repeat split.
Qed.

Lemma manual_drive_iteration_witness :
  motors (loop (frame_at IR_LEFT 1000) boot) = M_LEFT /\
  motors (loop (mkInputs (Some IR_LEFT) 1000 1201 1201 1201 NoEcho) boot) = M_STOP.
Proof.
  split.
  - refine (match manual_drive_iteration (frame_at IR_LEFT 1000) boot
                    IR_LEFT M_LEFT eq_refl eq_refl _ with
            | conj H _ => H
            end).
    right; right; left; reflexivity.
  - refine (match manual_drive_iteration
                    (mkInputs (Some IR_LEFT) 1000 1201 1201 1201 NoEcho) boot
                    IR_LEFT M_LEFT eq_refl eq_refl _ with
            | conj H _ => H
            end).
    right; right; left; reflexivity.
Defined.

(** X4. In smart mode a Forward frame is ignored: the iteration does what
    it would have done without the frame, apart from printing the code
    and stamping [lastIRSignalTime]. *)
Theorem forward_ignored_in_smart_mode (i : Inputs) (s : State) :
  isSmartForward s = true ->
  ir i = Some IR_FORWARD ->
  loop i s =
  loop (without_frame i)
    (println (ReceivedCommand IR_FORWARD)
       (set_lastIRSignalTime (millis (clk_ir i)) s)).
Proof.
  intros Hs Hi.
  set (s1 := println _ _).
  assert (H1 : isSmartForward s1 = true) by exact Hs.
  assert (Hir : loop_ir i s = s1).
  { unfold loop_ir. rewrite Hi, seq_apply.
    destruct s as [sf av lo li a b c d bz tr log]; cbn in Hs; subst sf.
    reflexivity. }
  rewrite (loop_silent_smart (without_frame i) s1 eq_refl H1).
  rewrite loop_blocks, Hir, (loop_watchdog_smart i s1 H1).
  now rewrite (loop_smart_smart i s1 H1).
Qed.

Lemma forward_ignored_in_smart_mode_witness :
  motors (run (smart_with_obstacle ++ [frame_at IR_FORWARD 1100]) boot) = M_RIGHT /\
  buzzer (run (smart_with_obstacle ++ [frame_at IR_FORWARD 1100]) boot) = HIGH.
Proof.
  rewrite run_app. cbn [run].
  rewrite (forward_ignored_in_smart_mode (frame_at IR_FORWARD 1100)
             (run smart_with_obstacle boot) eq_refl eq_refl).
  vm_compute. split; reflexivity.
Defined.

(** ** What the buzzer tells *)

Lemma tracks_setup (p : State) :
  initial p -> buzzer_tracks_avoidance (setup p).
Proof.
  intros (Hm & _). split.
  - intros H. discriminate H.
  - intros H. change (isSmartForward p = true) in H. congruence.
Qed.

(** On a state given by its fields the invariant is a statement about
    those fields. *)
Ltac tracks_fields H :=
  unfold buzzer_tracks_avoidance, motors, M_RIGHT, M_FORWARD, HIGH, LOW in H;
  cbn in H; destruct H as [Hhigh Hlow].

Lemma tracks_handleIRCommand (c : Z) (s : State) :
  buzzer_tracks_avoidance s -> buzzer_tracks_avoidance (handleIRCommand c s).
Proof.
  intros H.
  destruct (handleIRCommand_cases c s) as [E | [E | [E | [E | [E | E]]]]];
    rewrite E; clear E;
    destruct s as [sf av lo li a b c0 d bz tr log];
    tracks_fields H;
    destruct sf, bz;
    try (destruct (Hhigh eq_refl) as (Hsf & Hmot & Hav);
         try discriminate Hsf; injection Hmot as -> -> -> ->; subst av);
    try (specialize (Hlow eq_refl eq_refl); injection Hlow as -> -> -> ->);
    split; vm_compute; intros; repeat split; congruence.
Qed.

Lemma tracks_loop_ir (i : Inputs) (s : State) :
  buzzer_tracks_avoidance s -> buzzer_tracks_avoidance (loop_ir i s).
Proof.
  intros H. unfold loop_ir. destruct (ir i) as [c|]; [|exact H].
  rewrite seq_apply. apply tracks_handleIRCommand. exact H.
Qed.

Lemma tracks_loop_watchdog (i : Inputs) (s : State) :
  buzzer_tracks_avoidance s -> buzzer_tracks_avoidance (loop_watchdog i s).
Proof.
  intros H. unfold loop_watchdog, ifb, skip.
  destruct (isSmartForward s) eqn:Hm; cbn [negb andb]; [exact H|].
  destruct (signalTimeout <? _); [|exact H].
  destruct H as [Hhigh Hlow]. split.
  - intros Hb. destruct (Hhigh Hb) as (Hsf & _). congruence.
  - intros Hsf. change (isSmartForward s = true) in Hsf. congruence.
Qed.

Lemma tracks_checkObstacle (now : Z) (e : Echo) (s : State) :
  buzzer_tracks_avoidance (checkObstacle now e s) \/
  isSmartForward s = false.
Proof.
  destruct (isSmartForward s) eqn:Hm; [left | now right].
  destruct ((0 <? getDistance e) && (getDistance e <? OBSTACLE_THRESHOLD)) eqn:G.
  - destruct (checkObstacle_avoid now e s G) as (Hb & Hmot & Ha & Hs & _).
    split.
    + intros _. repeat split; congruence.
    + intros _ Hl. rewrite Hb in Hl. discriminate Hl.
  - destruct (checkObstacle_clear now e s G) as (Hb & Hmot & Ha & Hs & _).
    split.
    + intros Hh. rewrite Hb in Hh. discriminate Hh.
    + intros _ _. exact Hmot.
Qed.

Lemma tracks_loop_smart (i : Inputs) (s : State) :
  buzzer_tracks_avoidance s -> buzzer_tracks_avoidance (loop_smart i s).
Proof.
  intros H. destruct (isSmartForward s) eqn:Hm.
  - rewrite (loop_smart_smart i s Hm). destruct (due _ i); [|exact H].
    destruct (tracks_checkObstacle (clk_cycle i) (echo i) s) as [K | K];
      [exact K | congruence].
  - now rewrite (loop_smart_manual i s Hm).
Qed.

Lemma tracks_reachable (s : State) :
  reachable s -> buzzer_tracks_avoidance s.
Proof.
  induction 1 as [p Hp | i s _ IH].
  - now apply tracks_setup.
  - rewrite loop_blocks.
    now apply tracks_loop_smart, tracks_loop_watchdog, tracks_loop_ir.
Qed.

(** X5. In every state reached at the top of [loop()], a sounding buzzer
    means that the sketch is in smart mode, the avoidance flag is set and
    the motor pins show the right turn. *)
Theorem buzzer_means_turning_right (s : State) :
  reachable s ->
  buzzer s = HIGH ->
  isSmartForward s = true /\ motors s = M_RIGHT /\ isAvoiding s = true.
Proof.
  intros Hr. exact (proj1 (tracks_reachable s Hr)).
Qed.

Lemma buzzer_means_turning_right_witness :
  buzzer (run smart_with_obstacle boot) = HIGH /\
  motors (run smart_with_obstacle boot) = M_RIGHT.
Proof.
  assert (Hb : buzzer (run smart_with_obstacle boot) = HIGH)
    by (vm_compute; reflexivity).
  split; [exact Hb|].
  exact (proj1 (proj2 (buzzer_means_turning_right _
                         (reachable_run _ _ reach_boot) Hb))).
Defined.

(** X6. In every state reached at the top of [loop()] in smart mode the
    car is either driving forward with the buzzer off or turning right
    with the buzzer on; it is never stopped, reversing or turning left. *)
Theorem smart_mode_motion (s : State) :
  reachable s ->
  isSmartForward s = true ->
  motors s = (if buzzer s then M_RIGHT else M_FORWARD).
Proof.
  intros Hr Hs. destruct (tracks_reachable s Hr) as [Hhigh Hlow].
  destruct (buzzer s) eqn:Hb.
  - now destruct (Hhigh eq_refl) as (_ & Hm & _).
  - now apply Hlow.
Qed.

Lemma smart_mode_motion_witness :
  motors (run scenario_C boot) = M_FORWARD.
Proof.
  assert (Hs : isSmartForward (run scenario_C boot) = true)
    by (vm_compute; reflexivity).
  rewrite (smart_mode_motion _ (reachable_run _ _ reach_boot) Hs).
  vm_compute. reflexivity.
Defined.

(** ** The avoidance cycle *)

Lemma checkObstacle_outcome (now : Z) (e : Echo) (s : State) :
  let s' := checkObstacle now e s in
  buzzer s' = in_range (getDistance e) /\
  isAvoiding s' = in_range (getDistance e) /\
  motors s' = (if in_range (getDistance e) then M_RIGHT else M_FORWARD) /\
  trigger s' = LOW.
Proof.
  cbv zeta. rewrite checkObstacle_branches. fold (in_range (getDistance e)).
  generalize (getDistance e). intros d.
  destruct (in_range d);
    destruct s as [sf av lo li a b c d0 bz tr log]; destruct av; crunch.
Qed.

(** X7. The avoidance cycle has no memory: the buzzer, the avoidance
    flag, the motor pins and the trigger pin it leaves are determined by
    the reading alone, whatever the state it started from. The buzzer and
    the flag are on, and the car turns right, exactly when the reading is
    positive and below the threshold; otherwise it drives forward. *)
Theorem cycle_is_memoryless (now1 now2 : Z) (e : Echo) (s1 s2 : State) :
  let a := checkObstacle now1 e s1 in
  let b := checkObstacle now2 e s2 in
  buzzer a = buzzer b /\ isAvoiding a = isAvoiding b /\
  motors a = motors b /\ trigger a = trigger b /\
  buzzer a = isAvoiding a /\
  motors a = (if buzzer a then M_RIGHT else M_FORWARD) /\
  buzzer a = (0 <? getDistance e) && (getDistance e <? OBSTACLE_THRESHOLD).
Proof.
  cbv zeta.
  destruct (checkObstacle_outcome now1 e s1) as (A1 & A2 & A3 & A4).
  destruct (checkObstacle_outcome now2 e s2) as (B1 & B2 & B3 & B4).
  rewrite A1, A2, A3, A4, B1, B2, B3, B4. repeat split.
Qed.

(** X8. The cycle reports only changes. "Obstacle detected" is printed
    exactly when the avoidance flag goes from clear to set, "Path clear"
    exactly when it goes from set to clear; the distance line and the
    manoeuvre line are printed every time. *)
Theorem cycle_reports_edges (now : Z) (e : Echo) (s : State) :
  let s' := checkObstacle now e s in
  exists middle,
    serial s' =
      (if isAvoiding s' then TurningRIGHT else MovingFORWARD) :: middle ++
      DistanceCm (getDistance e) :: serial s /\
    (middle = [ObstacleDetected] <->
       isAvoiding s = false /\ isAvoiding s' = true) /\
    (middle = [PathClear] <->
       isAvoiding s = true /\ isAvoiding s' = false) /\
    (middle = [] <-> isAvoiding s = isAvoiding s').
Proof.
  cbv zeta.
  destruct ((0 <? getDistance e) && (getDistance e <? OBSTACLE_THRESHOLD)) eqn:G.
  - destruct (checkObstacle_avoid now e s G) as (_ & _ & Ha & _ & _ & _ & Hl).
    rewrite Ha, Hl.
    exists (if isAvoiding s then [] else [ObstacleDetected]).
    destruct (isAvoiding s); repeat split; intros; try discriminate;
      try reflexivity; intuition discriminate.
  - destruct (checkObstacle_clear now e s G) as (_ & _ & Ha & _ & _ & _ & Hl).
    rewrite Ha, Hl.
    exists (if isAvoiding s then [PathClear] else []).
    destruct (isAvoiding s); repeat split; intros; try discriminate;
      try reflexivity; intuition discriminate.
Qed.

(** ** The detection window *)

Lemma range_ok_sound (P : Z -> bool) (fuel : nat) :
  forall lo hi,
    range_ok P fuel lo hi = true ->
    forall x, lo <= x < hi -> P x = true.
Proof.
  induction fuel as [|f IH]; intros lo hi H x Hx; cbn [range_ok] in H.
  - apply orb_true_iff in H as [H | H].
    + apply Z.leb_le in H. lia.
    + apply andb_true_iff in H as [H1 H2]. apply Z.eqb_eq in H1.
      replace x with lo by lia. exact H2.
  - destruct (hi <=? lo + 1) eqn:Hsmall.
    + apply Z.leb_le in Hsmall.
      apply orb_true_iff in H as [H | H].
      * apply Z.leb_le in H. lia.
      * replace x with lo by lia. exact H.
    + apply andb_true_iff in H as [H1 H2].
      destruct (Z_lt_le_dec x (lo + (hi - lo) / 2)) as [Hl | Hr].
      * apply (IH _ _ H1). lia.
      * apply (IH _ _ H2). lia.
Qed.

Lemma window_checked : range_ok window_check 17 0 100001 = true.
Proof. vm_cast_no_check (eq_refl true). Qed.

(** X9. For every echo of at most 100 ms the reading [getDistance]
    returns is a non-negative 16-bit [int], and the cycle takes it for an
    obstacle (buzzer on, right turn) exactly when the echo lasts between
    59 and 1176 microseconds; shorter and longer echoes drive forward. *)
Theorem detection_window (now us : Z) (s : State) :
  0 <= us <= 100000 ->
  0 <= getDistance (Pulse us) <= 32767 /\
  buzzer (checkObstacle now (Pulse us) s) = ((59 <=? us) && (us <=? 1176)) /\
  motors (checkObstacle now (Pulse us) s) =
    (if (59 <=? us) && (us <=? 1176) then M_RIGHT else M_FORWARD).
Proof.
  intros Hus.
  assert (Hw : window_check us = true)
    by (apply (range_ok_sound _ _ _ _ window_checked); lia).
  unfold window_check in Hw.
  apply andb_true_iff in Hw as [Hw Hhi]. apply andb_true_iff in Hw as [Hw Hlo].
  apply Bool.eqb_prop in Hw. apply Z.leb_le in Hlo, Hhi.
  change (cm_of_duration us) with (getDistance (Pulse us)) in *.
  destruct (checkObstacle_outcome now (Pulse us) s) as (Hb & _ & Hm & _).
  rewrite Hb, Hm, Hw. repeat split; assumption.
Qed.

Lemma detection_window_witness :
  buzzer (checkObstacle 700 (Pulse 58) boot) = LOW /\
  buzzer (checkObstacle 700 (Pulse 59) boot) = HIGH /\
  buzzer (checkObstacle 700 (Pulse 1176) boot) = HIGH /\
  buzzer (checkObstacle 700 (Pulse 1177) boot) = LOW.
Proof.
  split; [|split; [|split]].
  - exact (proj1 (proj2 (detection_window 700 58 boot ltac:(lia)))).
  - exact (proj1 (proj2 (detection_window 700 59 boot ltac:(lia)))).
  - exact (proj1 (proj2 (detection_window 700 1176 boot ltac:(lia)))).
  - exact (proj1 (proj2 (detection_window 700 1177 boot ltac:(lia)))).
Defined.

(** ** Silence *)

Lemma checkObstacle_log (now : Z) (e : Echo) (s : State) :
  exists log,
    serial (checkObstacle now e s) = log ++ serial s /\ ~ In STOPPED log.
Proof.
  destruct ((0 <? getDistance e) && (getDistance e <? OBSTACLE_THRESHOLD)) eqn:G.
  - destruct (checkObstacle_avoid now e s G) as (_ & _ & _ & _ & _ & _ & Hl).
    exists (TurningRIGHT :: (if isAvoiding s then [] else [ObstacleDetected]) ++
            [DistanceCm (getDistance e)]).
    split; [rewrite Hl; cbn; now rewrite <- app_assoc|].
    destruct (isAvoiding s); cbn; intuition discriminate.
  - destruct (checkObstacle_clear now e s G) as (_ & _ & _ & _ & _ & _ & Hl).
    exists (MovingFORWARD :: (if isAvoiding s then [PathClear] else []) ++
            [DistanceCm (getDistance e)]).
    split; [rewrite Hl; cbn; now rewrite <- app_assoc|].
    destruct (isAvoiding s); cbn; intuition discriminate.
Qed.

(** X10. In smart mode the watchdog is off: through any number of
    iterations without a frame, however long the silence, the mode stays
    smart, [lastIRSignalTime] is not touched and [stopCar] is never
    called. *)
Theorem smart_mode_ignores_silence (ins : list Inputs) (s : State) :
  isSmartForward s = true ->
  Forall silent ins ->
  isSmartForward (run ins s) = true /\
  lastIRSignalTime (run ins s) = lastIRSignalTime s /\
  exists log, serial (run ins s) = log ++ serial s /\ ~ In STOPPED log.
Proof.
  revert s. induction ins as [|i rest IH]; intros s Hm Hall.
  - repeat split; [exact Hm|]. exists []. split; [reflexivity | intros []].
  - inversion Hall as [|? ? Hi Hrest]; subst. cbn [run].
    assert (Hstep : isSmartForward (loop i s) = true /\
                    lastIRSignalTime (loop i s) = lastIRSignalTime s /\
                    exists log, serial (loop i s) = log ++ serial s /\
                                ~ In STOPPED log).
    { rewrite (loop_silent_smart i s Hi Hm). destruct (due _ i).
      - destruct (checkObstacle_frame (clk_cycle i) (echo i) s) as (F1 & F2 & _).
        split; [congruence|]. split; [exact F2|]. apply checkObstacle_log.
      - split; [exact Hm|]. split; [reflexivity|].
        exists []. split; [reflexivity | intros []]. }
    destruct Hstep as (S1 & S2 & log1 & S3 & S4).
    destruct (IH (loop i s) S1 Hrest) as (K1 & K2 & log2 & K3 & K4).
    split; [exact K1|]. split; [congruence|].
    exists (log2 ++ log1). split.
    + rewrite K3, S3. apply app_assoc.
    + intros Hin. apply in_app_or in Hin as [Hin | Hin]; auto.
Qed.

Lemma smart_mode_ignores_silence_witness :
  isSmartForward
    (run [idle_at 5000; idle_at 90000] (run smart_on_at_1000 boot)) = true.
Proof.
  refine (proj1 (smart_mode_ignores_silence [idle_at 5000; idle_at 90000]
                   (run smart_on_at_1000 boot) eq_refl _)).
  repeat constructor.
Defined.

(** X11. An iteration that decodes no frame and finds neither timer
    elapsed changes nothing at all: in manual mode when the watchdog
    comparison fails, in smart mode when the cadence comparison fails. *)
Theorem idle_iteration_is_noop (i : Inputs) (s : State) :
  silent i ->
  (if isSmartForward s
   then U32.usub (millis (clk_chk i)) (lastObstacleCheck s) <= obstacleCheckInterval
   else U32.usub (millis (clk_wd i)) (lastIRSignalTime s) <= signalTimeout) ->
  loop i s = s.
Proof.
  intros Hi Hq. destruct (isSmartForward s) eqn:Hm.
  - rewrite (loop_silent_smart i s Hi Hm). unfold due.
    apply Z.ltb_ge in Hq. now rewrite Hq.
  - rewrite (loop_silent_manual i s Hi Hm).
    apply Z.ltb_ge in Hq. now rewrite Hq.
Qed.

Lemma idle_iteration_is_noop_witness :
  loop (idle_at 1200) (run forward_at_1000 boot) = run forward_at_1000 boot.
Proof.
  apply idle_iteration_is_noop; [reflexivity | vm_compute; discriminate].
Defined.

(** ** Counter rollover *)

(** X12. Both timers survive the rollover of the millisecond counter: as
    long as less than one counter period (2^32 ms) has really passed since
    the stamp, the watchdog comparison holds exactly when more than 200 ms
    have passed and the cadence comparison exactly when more than 300 ms
    have, even if the counter has wrapped in between. *)
Theorem timers_survive_rollover (t : Z) (i : Inputs) :
  0 <= clk_wd i - t < U32.modulus ->
  0 <= clk_chk i - t < U32.modulus ->
  (expired (millis t) i <-> signalTimeout < clk_wd i - t) /\
  due (millis t) i = (obstacleCheckInterval <? clk_chk i - t).
Proof.
  intros Hwd Hchk. unfold expired, due.
  rewrite !usub_millis_exact by assumption. split; reflexivity.
Qed.

Lemma timers_survive_rollover_witness :
  millis (stamp_before_rollover + 250) < millis stamp_before_rollover /\
  expired (millis stamp_before_rollover) (idle_at (stamp_before_rollover + 250)) /\
  due (millis stamp_before_rollover) (idle_at (stamp_before_rollover + 250)) = false.
Proof.
  split; [vm_compute; reflexivity|].
  destruct (timers_survive_rollover stamp_before_rollover
              (idle_at (stamp_before_rollover + 250)))
    as (Hexp & Hdue).
  - vm_compute. split; [discriminate | reflexivity].
  - vm_compute. split; [discriminate | reflexivity].
  - split; [apply Hexp; vm_compute; reflexivity | rewrite Hdue; vm_compute; reflexivity].
Defined.

(** ** Entering smart mode, and staying out of it *)

(** X13. Entering smart mode resets neither the cadence timer nor
    anything else the cycle depends on: the iteration that switches smart
    mode on runs the avoidance cycle at once when more than 300 units have
    passed since the last cycle stamp, on top of the state the toggle
    left, and otherwise ends in that state. *)
Theorem smart_entry_runs_due_cycle (i : Inputs) (s : State) :
  isSmartForward s = false ->
  ir i = Some IR_SMART_FWD ->
  let entered :=
    toggleSmartMode
      (println (ReceivedCommand IR_SMART_FWD)
         (set_lastIRSignalTime (millis (clk_ir i)) s)) in
  motors entered = M_FORWARD /\
  loop i s =
    if obstacleCheckInterval <?
         U32.usub (millis (clk_chk i)) (lastObstacleCheck s)
    then checkObstacle (clk_cycle i) (echo i) entered
    else entered.
Proof.
  intros Hm Hi. cbv zeta.
  set (s0 := println _ _).
  destruct (toggleSmartMode_on s0 Hm) as (H1 & H2 & _ & _ & H5 & _).
  split; [exact H2|].
  rewrite loop_blocks, (loop_ir_toggle i s Hi). fold s0.
  rewrite (loop_watchdog_smart i _ H1), (loop_smart_smart i _ H1).
  unfold due. now rewrite H5.
Qed.

Lemma smart_entry_runs_due_cycle_witness :
  motors (loop (mkInputs (Some IR_SMART_FWD) 1000 1000 1000 1000 (Pulse 600)) boot)
  = M_RIGHT.
Proof.
  destruct (smart_entry_runs_due_cycle
              (mkInputs (Some IR_SMART_FWD) 1000 1000 1000 1000 (Pulse 600))
              boot eq_refl eq_refl) as (_ & H).
  rewrite H. vm_compute. reflexivity.
Defined.

(** X14. From power-on, whatever the pins showed before [setup()], the car
    stands still until the first frame is decoded: after [setup()] and any
    number of iterations without a frame the motor pins show the stop
    pattern, the buzzer is low and the mode is manual. *)
Theorem stopped_until_first_frame (p : State) (ins : list Inputs) :
  initial p ->
  Forall silent ins ->
  motors (run ins (setup p)) = M_STOP /\
  buzzer (run ins (setup p)) = LOW /\
  isSmartForward (run ins (setup p)) = false /\
  isAvoiding (run ins (setup p)) = false.
Proof.
  intros (Hm & Ha & _) Hall.
  assert (Hm' : isSmartForward (setup p) = false) by exact Hm.
  destruct (run_silent_manual ins (setup p) Hall Hm')
    as (K1 & _ & _ & K4 & K5 & K6).
  split; [apply K6; reflexivity|]. split; [rewrite K4; reflexivity|].
  split; [exact K1|]. rewrite K5. exact Ha.
Qed.

Lemma stopped_until_first_frame_witness :
  motors (run [idle_at 100; idle_at 250; idle_at 60000] boot) = M_STOP.
Proof.
  refine (proj1 (stopped_until_first_frame power_on
                   [idle_at 100; idle_at 250; idle_at 60000] _ _)).
  - repeat split.
  - repeat constructor.
Defined.

(** X15. The range sensor is used in smart mode only: an iteration that
    ends in manual mode has not run the avoidance cycle, so the cycle
    stamp, the avoidance flag and the trigger pin are as they were. *)
Theorem no_cycle_in_manual (i : Inputs) (s : State) :
  isSmartForward (loop i s) = false ->
  runs_cycle i s = false /\
  lastObstacleCheck (loop i s) = lastObstacleCheck s /\
  isAvoiding (loop i s) = isAvoiding s /\
  trigger (loop i s) = trigger s.
Proof.
  intros Hend.
  assert (Hmid : isSmartForward (before_smart i s) = false).
  { rewrite loop_blocks, loop_smart_mode in Hend. exact Hend. }
  assert (Hrun : runs_cycle i s = false).
  { unfold runs_cycle. now rewrite Hmid. }
  split; [exact Hrun|].
  rewrite loop_runs_cycle, Hrun.
  split; [apply before_smart_frame|].
  unfold before_smart.
  destruct (loop_watchdog_frame i (loop_ir i s)) as (_ & _ & _ & _ & W5).
  destruct (loop_ir_frame i s) as (_ & I2).
  split; [congruence|].
  assert (Hw : trigger (loop_watchdog i (loop_ir i s)) = trigger (loop_ir i s)).
  { unfold loop_watchdog, ifb, skip. destruct (_ && _); reflexivity. }
  rewrite Hw. unfold loop_ir. destruct (ir i) as [c|]; [|reflexivity].
  rewrite seq_apply.
  destruct (handleIRCommand_cases c (set_lastIRSignalTime (millis (clk_ir i)) s))
    as [E | [E | [E | [E | [E | E]]]]];
    rewrite E; clear E;
    destruct s as [sf av lo li a b c0 d bz tr log]; destruct sf; reflexivity.
Qed.

Lemma no_cycle_in_manual_witness :
  lastObstacleCheck (loop (frame_at IR_BACKWARD 5000) (run scenario_B boot)) = 1400.
Proof.
  destruct (no_cycle_in_manual (frame_at IR_BACKWARD 5000) (run scenario_B boot))
    as (_ & H & _).
  - vm_compute. reflexivity.
  - rewrite H. vm_compute. reflexivity.
Defined.

(** * The transmitter *)

Lemma sendIR_log (c : Z) (log : list Transmitter.Event) :
  Transmitter.sendIR c log =
  [ Transmitter.Delay 40; Transmitter.SendNEC c 32;
    Transmitter.Delay 40; Transmitter.SendNEC c 32;
    Transmitter.Delay 40; Transmitter.SendNEC c 32 ] ++ log.
Proof. reflexivity. Qed.

(** X16. One pass through the transmitter's [loop()] prints the two
    readings, sends at most one command and pauses 50 ms. A command is
    always one of the five codes the receiver has a [case] for, and it goes
    out as three identical 32-bit frames, each followed by a 40 ms pause. *)
Theorem transmitter_pass_shape
    (j : Transmitter.Joystick) (log : list Transmitter.Event) :
  Transmitter.loop j log =
    Transmitter.Delay 50 ::
    Transmitter.PrintXY (Transmitter.joy_x j) (Transmitter.joy_y j) :: log \/
  exists c,
    recognized c = true /\
    Transmitter.loop j log =
      Transmitter.Delay 50 ::
      Transmitter.Delay 40 :: Transmitter.SendNEC c 32 ::
      Transmitter.Delay 40 :: Transmitter.SendNEC c 32 ::
      Transmitter.Delay 40 :: Transmitter.SendNEC c 32 ::
      Transmitter.PrintXY (Transmitter.joy_x j) (Transmitter.joy_y j) :: log.
Proof.
  unfold Transmitter.loop, Transmitter.andThen, Transmitter.emit.
  destruct (_ && _); [right; exists Transmitter.IR_FORWARD; split; reflexivity|].
  destruct (_ && _); [right; exists Transmitter.IR_BACKWARD; split; reflexivity|].
  destruct (700 <? _); [right; exists Transmitter.IR_RIGHT; split; reflexivity|].
  destruct (_ <? 300); [right; exists Transmitter.IR_LEFT; split; reflexivity|].
  destruct (negb _); [right; exists Transmitter.IR_SMART_FWD; split; reflexivity|].
  left. reflexivity.
Qed.

(** The tests of the transmitter's [loop()] as propositions. *)
Ltac joystick_cases j :=
  destruct j as [x y pin];
  unfold Transmitter.sent, Transmitter.loop, Transmitter.deflected,
    Transmitter.andThen, Transmitter.emit, Transmitter.nothing;
  cbn [Transmitter.joy_x Transmitter.joy_y Transmitter.btn_pin];
  destruct (700 <? y) eqn:Efwd; destruct (y <? 300) eqn:Eback;
  destruct (Z.abs (x - 512) <? 100) eqn:Emid;
  destruct (700 <? x) eqn:Eright; destruct (x <? 300) eqn:Eleft;
  rewrite ?Z.ltb_lt, ?Z.ltb_ge in *;
  try lia.

(** X17. Which command a pass sends is decided by the stick position
    alone when the stick is deflected, and the four direction tests
    exclude one another, so their order in the chain does not matter:
    Forward goes out exactly when [y > 700] with [x] within 100 of the
    centre, Backward exactly when [y < 300] with [x] within 100 of the
    centre, Right exactly when [x > 700], Left exactly when [x < 300].
    The smart-forward code goes out exactly when the button is pressed and
    none of these holds, and nothing is sent exactly when the button is
    released and none of these holds. *)
Theorem transmitter_zones (j : Transmitter.Joystick) :
  let x := Transmitter.joy_x j in
  let y := Transmitter.joy_y j in
  (Transmitter.sent j = repeat Transmitter.IR_FORWARD 3 <->
     700 < y /\ Z.abs (x - 512) < 100) /\
  (Transmitter.sent j = repeat Transmitter.IR_BACKWARD 3 <->
     y < 300 /\ Z.abs (x - 512) < 100) /\
  (Transmitter.sent j = repeat Transmitter.IR_RIGHT 3 <-> 700 < x) /\
  (Transmitter.sent j = repeat Transmitter.IR_LEFT 3 <-> x < 300) /\
  (Transmitter.sent j = repeat Transmitter.IR_SMART_FWD 3 <->
     Transmitter.btn_pin j = LOW /\ ~ Transmitter.deflected j) /\
  (Transmitter.sent j = [] <->
     Transmitter.btn_pin j = HIGH /\ ~ Transmitter.deflected j).
Proof.
  cbv zeta. joystick_cases j; destruct pin; cbn;
    repeat split; intros; try discriminate; try lia;
    try (intuition (try discriminate; lia)).
Qed.

(** X18. While the stick is deflected the button has no effect: the pass
    is the same whether it is pressed or not. *)
Theorem transmitter_button_masked
    (x y : Z) (p q : bool) (log : list Transmitter.Event) :
  Transmitter.deflected (Transmitter.mkJoystick x y p) ->
  Transmitter.loop (Transmitter.mkJoystick x y p) log =
  Transmitter.loop (Transmitter.mkJoystick x y q) log.
Proof.
  intros Hd. revert Hd.
  unfold Transmitter.loop, Transmitter.deflected.
  cbn [Transmitter.joy_x Transmitter.joy_y Transmitter.btn_pin].
  destruct (700 <? y) eqn:Efwd; destruct (y <? 300) eqn:Eback;
    destruct (Z.abs (x - 512) <? 100) eqn:Emid;
    destruct (700 <? x) eqn:Eright; destruct (x <? 300) eqn:Eleft;
    rewrite ?Z.ltb_lt, ?Z.ltb_ge in *; cbn [andb];
    intros Hd; try reflexivity; lia.
Qed.

Lemma transmitter_button_masked_witness :
  Transmitter.sent (Transmitter.mkJoystick 900 512 LOW) =
  Transmitter.sent (Transmitter.mkJoystick 900 512 HIGH).
Proof.
  unfold Transmitter.sent.
  rewrite (transmitter_button_masked 900 512 LOW HIGH []).
  - reflexivity.
  - right; left. reflexivity.
Defined.
